(** * Action cache server: existence validation and the read/write handlers

    A shallow embedding of
    [server/remote_cache/action_cache_server/action_cache_server.go].

    The Go code talks to three collaborators that live outside the file:
    the digest cache ([interfaces.DigestCache]), the protobuf codec and the
    [digest], [perms] and [status] helpers.  They are taken as parameters
    (records of functions); the handlers themselves are translated line by
    line into a small state-and-error monad that also records every call
    made to the cache. *)

From Stdlib Require Import ZArith.
From Stdlib.Strings Require Import Byte.
From stdpp Require Import base option list strings gmap.

Local Open Scope Z_scope.

(** ** Protocol messages ([repb]) *)

(** [[]byte]. *)
Definition bytes := list byte.

#[global] Instance byte_eq_dec : EqDecision byte := Byte.byte_eq_dec.

(** Modelled from the spec: the [repb] messages are generated code outside
    this file.  [repb.Digest] is a hash and the [int64] field
    [size_bytes]. *)
Record Digest := mkDigest {
  Hash : string;
  SizeBytes : Z;
}.

#[global] Instance Digest_eq_dec : EqDecision Digest.
Proof. solve_decision. Defined.

#[global] Instance Digest_countable : Countable Digest :=
  inj_countable'
    (fun d => (Hash d, SizeBytes d))
    (fun p => mkDigest p.1 p.2)
    (fun d => match d with mkDigest _ _ => eq_refl end).

(** Getters on a possibly nil [*repb.Digest]: a nil receiver yields the
    zero value. *)
Definition GetSizeBytes (d : option Digest) : Z :=
  match d with
  | Some d => SizeBytes d
  | None => 0
  end.

(** Modelled from the spec: [repb.OutputFile], a path, a digest that may be
    unset and the inlined contents. *)
Record OutputFile := mkOutputFile {
  OutputFile_Path : string;
  OutputFile_Digest : option Digest;
  OutputFile_IsExecutable : bool;
  OutputFile_Contents : bytes;
}.

(** Modelled from the spec: [repb.OutputDirectory], a path and the digest
    of a serialized [Tree]. *)
Record OutputDirectory := mkOutputDirectory {
  OutputDirectory_Path : string;
  OutputDirectory_TreeDigest : option Digest;
}.

(** Modelled from the spec: [repb.FileNode], [repb.DirectoryNode] and
    [repb.Directory]; a directory lists its files and names its
    sub-directories. *)
Record FileNode := mkFileNode {
  FileNode_Name : string;
  FileNode_Digest : option Digest;
  FileNode_IsExecutable : bool;
}.

Record DirectoryNode := mkDirectoryNode {
  DirectoryNode_Name : string;
  DirectoryNode_Digest : option Digest;
}.

Record Directory := mkDirectory {
  Files : list FileNode;
  Directories : list DirectoryNode;
}.

(** [dir.GetFiles()] on a possibly nil [*repb.Directory]. *)
Definition GetFiles (dir : option Directory) : list FileNode :=
  match dir with
  | Some d => Files d
  | None => []
  end.

(** Modelled from the spec: [repb.Tree], a root directory and the ordered
    sequence of its children. *)
Record Tree := mkTree {
  Root : option Directory;
  Children : list Directory;
}.

Record Timestamp := mkTimestamp {
  Seconds : Z;
  Nanos : Z;
}.

(** Modelled from the spec: the [repb] message declarations are generated
    code outside this file; [ExecutedActionMetadata] is the worker name
    followed by the timestamps of the execution phases, every one of them
    optional. *)
Record ExecutedActionMetadata := mkExecutedActionMetadata {
  Worker : string;
  QueuedTimestamp : option Timestamp;
  WorkerStartTimestamp : option Timestamp;
  WorkerCompletedTimestamp : option Timestamp;
  InputFetchStartTimestamp : option Timestamp;
  InputFetchCompletedTimestamp : option Timestamp;
  ExecutionStartTimestamp : option Timestamp;
  ExecutionCompletedTimestamp : option Timestamp;
  OutputUploadStartTimestamp : option Timestamp;
  OutputUploadCompletedTimestamp : option Timestamp;
}.

(** Modelled from the spec: [repb.ActionResult], the output files and
    directories, the exit code and the output streams of the action, and
    the execution metadata. *)
Record ActionResult := mkActionResult {
  OutputFiles : list OutputFile;
  OutputDirectories : list OutputDirectory;
  ExitCode : Z;
  StdoutRaw : bytes;
  StdoutDigest : option Digest;
  StderrRaw : bytes;
  StderrDigest : option Digest;
  ExecutionMetadata : option ExecutedActionMetadata;
}.

(** Modelled from the spec: the two requests; a message field left unset
    is a nil pointer. *)
Record GetActionResultRequest := mkGetActionResultRequest {
  Get_InstanceName : string;
  Get_ActionDigest : option Digest;
}.

Record UpdateActionResultRequest := mkUpdateActionResultRequest {
  Update_InstanceName : string;
  Update_ActionDigest : option Digest;
  Update_ActionResult : option ActionResult;
}.

#[global] Instance OutputFile_eq_dec : EqDecision OutputFile.
Proof. solve_decision. Defined.
#[global] Instance OutputDirectory_eq_dec : EqDecision OutputDirectory.
Proof. solve_decision. Defined.
#[global] Instance Timestamp_eq_dec : EqDecision Timestamp.
Proof. solve_decision. Defined.
#[global] Instance ExecutedActionMetadata_eq_dec : EqDecision ExecutedActionMetadata.
Proof. solve_decision. Defined.
#[global] Instance ActionResult_eq_dec : EqDecision ActionResult.
Proof. solve_decision. Defined.

(** ** Errors ([status]) *)

Inductive Code :=
  | InvalidArgument
  | NotFound
  | Internal
  | FailedPrecondition
  | ResourceExhausted
  | Unavailable.

(** Modelled from the spec: the [status] package is outside this file.  A
    Go [error] is either one built by [status], which carries a code, or a
    plain error with a message only (what [fmt.Errorf] and the protobuf
    codec return). *)
Inductive error :=
  | StatusError (c : Code) (msg : string)
  | PlainError (msg : string).

Definition status_InvalidArgumentError (msg : string) : error :=
  StatusError InvalidArgument msg.
Definition status_NotFoundError (msg : string) : error :=
  StatusError NotFound msg.
Definition status_InternalError (msg : string) : error :=
  StatusError Internal msg.

Definition is_code (c : Code) (e : error) : Prop :=
  match e with
  | StatusError c' _ => c' = c
  | PlainError _ => False
  end.

(** ** The collaborators *)

(** Modelled from the spec: [interfaces.DigestCache], seen through the
    prefix given to [WithPrefix].  [St] is the content of the store and [Ctx] the
    [context.Context] that carries the caller's prefix.  The digests are
    pointers in Go: [Get] may be handed nil (a missing [tree_digest]); the
    slices built by this file never hold nil.  The map returned by
    [ContainsMulti] is looked up by digest. *)
Record DigestCache (St Ctx : Type) := mkDigestCache {
  cache_Get : St -> Ctx -> option Digest -> error + bytes;
  cache_Set : St -> Ctx -> Digest -> bytes -> error + St;
  cache_ContainsMulti : St -> Ctx -> list Digest -> error + gmap Digest bool;
}.
Arguments cache_Get {St Ctx}.
Arguments cache_Set {St Ctx}.
Arguments cache_ContainsMulti {St Ctx}.

(** Modelled from the spec: [environment.Env] together with the library
    functions the handlers call.  [GetDigestCache] is what
    [env.GetDigestCache()] returns, nil or a cache, given by its
    [WithPrefix] method, which itself returns a cache view or nil.  Then
    come [perms], [digest.Validate], the protobuf codec, the formatting of
    a digest under [%s] and [%q], of an error under [%s], and the value of
    [base64.StdEncoding.EncodeToString(uuid.NodeID())]. *)
Record Env (St Ctx : Type) := mkEnv {
  GetDigestCache : option (string -> option (DigestCache St Ctx));
  perms_AttachUserPrefixToContext : Ctx -> Ctx;
  digest_Validate : Digest -> error + string;
  proto_Marshal : ActionResult -> string + bytes;
  proto_Unmarshal_ActionResult : bytes -> string + ActionResult;
  proto_Unmarshal_Tree : bytes -> string + Tree;
  fmt_s : Digest -> string;
  fmt_q : Digest -> string;
  error_Error : error -> string;
  NodeID_base64 : string;
}.
Arguments GetDigestCache {St Ctx}.
Arguments perms_AttachUserPrefixToContext {St Ctx}.
Arguments digest_Validate {St Ctx}.
Arguments proto_Marshal {St Ctx}.
Arguments proto_Unmarshal_ActionResult {St Ctx}.
Arguments proto_Unmarshal_Tree {St Ctx}.
Arguments fmt_s {St Ctx}.
Arguments fmt_q {St Ctx}.
Arguments error_Error {St Ctx}.
Arguments NodeID_base64 {St Ctx}.

(** ** The monad of a handler *)

(** One call to the cache, with its arguments. *)
Inductive Event (Ctx : Type) :=
  | EvGet (ctx : Ctx) (d : option Digest)
  | EvSet (ctx : Ctx) (d : Digest) (blob : bytes)
  | EvContainsMulti (ctx : Ctx) (digests : list Digest).
Arguments EvGet {Ctx}.
Arguments EvSet {Ctx}.
Arguments EvContainsMulti {Ctx}.

(** What running a piece of a handler gives: the value or the error it
    returns, the store it leaves and the calls it made, oldest first. *)
Record Run (St Ctx A : Type) := mkRun {
  result : error + A;
  store : St;
  calls : list (Event Ctx);
}.
Arguments mkRun {St Ctx A}.
Arguments result {St Ctx A}.
Arguments store {St Ctx A}.
Arguments calls {St Ctx A}.

Definition M (St Ctx A : Type) : Type := St -> Run St Ctx A.

Section Monad.
Context {St Ctx : Type}.

Definition ret {A} (a : A) : M St Ctx A :=
  fun st => mkRun (inr a) st [].

Definition fail {A} (e : error) : M St Ctx A :=
  fun st => mkRun (inl e) st [].

(** [x, err := m; if err != nil { return err }; k x]. *)
Definition bind {A B} (m : M St Ctx A) (k : A -> M St Ctx B) : M St Ctx B :=
  fun st =>
    let r := m st in
    match result r with
    | inl e => mkRun (inl e) (store r) (calls r)
    | inr a =>
        let r' := k a (store r) in
        mkRun (result r') (store r') (calls r ++ calls r')
    end.

(** [x, err := m; if err != nil { return h err }; return x]. *)
Definition mapError {A} (h : error -> error) (m : M St Ctx A) : M St Ctx A :=
  fun st =>
    let r := m st in
    match result r with
    | inl e => mkRun (inl (h e)) (store r) (calls r)
    | inr a => r
    end.

(** [for _, x := range l { if err := f x; err != nil { return err } }]. *)
Fixpoint forM_ {A} (l : list A) (f : A -> M St Ctx unit) : M St Ctx unit :=
  match l with
  | [] => ret tt
  | x :: l' => bind (f x) (fun _ => forM_ l' f)
  end.

(** Lifting a computation that touches nothing. *)
Definition liftE {A} (r : error + A) : M St Ctx A :=
  fun st => mkRun r st [].

Definition liftPlain {A} (r : string + A) : M St Ctx A :=
  match r with
  | inl msg => fail (PlainError msg)
  | inr a => ret a
  end.
End Monad.

Declare Scope go_scope.
Delimit Scope go_scope with go.
Notation "x <- m ;; k" := (bind m (fun x => k))
  (at level 100, m at next level, right associativity) : go_scope.
Notation "m ;;; k" := (bind m (fun _ => k))
  (at level 100, right associativity) : go_scope.

(** ** The server *)

Definition acCachePrefix : string := "ac-".

Record ActionCacheServer (St Ctx : Type) := mkActionCacheServer {
  env : Env St Ctx;
  cache : DigestCache St Ctx;
}.
Arguments mkActionCacheServer {St Ctx}.
Arguments env {St Ctx}.
Arguments cache {St Ctx}.

(** What a call that may panic gives: [Panics], or what it returns. *)
Inductive Outcome (A : Type) :=
  | Panics
  | Returns (r : error + A).
Arguments Panics {A}.
Arguments Returns {A}.

(** [env.GetDigestCache().WithPrefix(acCachePrefix)] calls a method on the
    value [GetDigestCache] returns: on nil the call panics.  The nil check
    of the code is on the view [WithPrefix] returns. *)
Definition NewActionCacheServer {St Ctx} (env : Env St Ctx)
  : Outcome (ActionCacheServer St Ctx) :=
  match GetDigestCache env with
  | None => Panics
  | Some withPrefix =>
      match withPrefix acCachePrefix with
      | None =>
          Returns (inl (PlainError "A cache is required to enable the ActionCacheServer"))
      | Some cache => Returns (inr (mkActionCacheServer env cache))
      end
  end.

Section Server.
Context {St Ctx : Type}.
Variable s : ActionCacheServer St Ctx.

Local Open Scope go_scope.

(** *** Calls to [s.cache] *)

Definition Get (ctx : Ctx) (d : option Digest) : M St Ctx bytes :=
  fun st => mkRun (cache_Get (cache s) st ctx d) st [EvGet ctx d].

Definition ContainsMulti (ctx : Ctx) (digests : list Digest)
  : M St Ctx (gmap Digest bool) :=
  fun st =>
    mkRun (cache_ContainsMulti (cache s) st ctx digests) st
          [EvContainsMulti ctx digests].

Definition Set_ (ctx : Ctx) (d : Digest) (blob : bytes) : M St Ctx unit :=
  fun st =>
    match cache_Set (cache s) st ctx d blob with
    | inl e => mkRun (inl e) st [EvSet ctx d blob]
    | inr st' => mkRun (inr tt) st' [EvSet ctx d blob]
    end.

(** *** [checkFilesExist] *)

Definition missing_msg (d : Digest) : string :=
  "AC Inconsistent result from cache.ContainsMulti (missing "
    +:+ fmt_q (env s) d +:+ ")".

Definition not_in_cache_msg (d : Digest) : string :=
  "ActionResult output file: '" +:+ fmt_s (env s) d +:+ "' not found in cache".

(** The loop over [digests], with [foundMap] already in hand. *)
Fixpoint checkFound (foundMap : gmap Digest bool) (digests : list Digest)
  : error + unit :=
  match digests with
  | [] => inr tt
  | d :: rest =>
      match foundMap !! d with
      | None => inl (status_InternalError (missing_msg d))
      | Some false => inl (status_NotFoundError (not_in_cache_msg d))
      | Some true => checkFound foundMap rest
      end
  end.

Definition checkFilesExist (ctx : Ctx) (digests : list Digest) : M St Ctx unit :=
  foundMap <- ContainsMulti ctx digests ;;
  liftE (checkFound foundMap digests).

(** *** [checkDirExists] *)

(** The slice [digests] built by the loop over [dir.GetFiles()]: an entry
    whose [Digest] is nil is skipped, every other digest is appended. *)
Fixpoint dirDigests (files : list FileNode) : list Digest :=
  match files with
  | [] => []
  | f :: rest =>
      match FileNode_Digest f with
      | None => dirDigests rest
      | Some d => d :: dirDigests rest
      end
  end.

Definition checkDirExists (ctx : Ctx) (dir : option Directory) : M St Ctx unit :=
  checkFilesExist ctx (dirDigests (GetFiles dir)).

(** *** [validateActionResult] *)

(** [len(f.Contents) > 0 && f.GetDigest().GetSizeBytes() > 0]. *)
Definition checked (f : OutputFile) : bool :=
  bool_decide (0 < Z.of_nat (length (OutputFile_Contents f)))
  && bool_decide (0 < GetSizeBytes (OutputFile_Digest f)).

(** The slice [outputFileDigests] built by the first loop.  When the
    test passes the size is positive, so [f.GetDigest()] is not nil. *)
Fixpoint outputFileDigests (files : list OutputFile) : list Digest :=
  match files with
  | [] => []
  | f :: rest =>
      if checked f then
        match OutputFile_Digest f with
        | Some d => d :: outputFileDigests rest
        | None => outputFileDigests rest
        end
      else outputFileDigests rest
  end.

(** The body of the loop over [r.OutputDirectories]. *)
Definition validateOutputDirectory (ctx : Ctx) (d : OutputDirectory)
  : M St Ctx unit :=
  blob <- Get ctx (OutputDirectory_TreeDigest d) ;;
  tree <- liftPlain (proto_Unmarshal_Tree (env s) blob) ;;
  checkDirExists ctx (Root tree) ;;;
  forM_ (Children tree) (fun childDir => checkDirExists ctx (Some childDir)).

Definition validateActionResult (ctx : Ctx) (r : ActionResult) : M St Ctx unit :=
  checkFilesExist ctx (outputFileDigests (OutputFiles r)) ;;;
  forM_ (OutputDirectories r) (validateOutputDirectory ctx).

(** *** [setWorkerMetadata] *)

(** The Go function assigns the field in place; here it returns the
    updated message.  Every field of the new [ExecutedActionMetadata]
    other than [Worker] has its zero value. *)
Definition setWorkerMetadata (ar : ActionResult) : ActionResult :=
  {| OutputFiles := OutputFiles ar;
     OutputDirectories := OutputDirectories ar;
     ExitCode := ExitCode ar;
     StdoutRaw := StdoutRaw ar;
     StdoutDigest := StdoutDigest ar;
     StderrRaw := StderrRaw ar;
     StderrDigest := StderrDigest ar;
     ExecutionMetadata :=
       Some {| Worker := NodeID_base64 (env s);
               QueuedTimestamp := None;
               WorkerStartTimestamp := None;
               WorkerCompletedTimestamp := None;
               InputFetchStartTimestamp := None;
               InputFetchCompletedTimestamp := None;
               ExecutionStartTimestamp := None;
               ExecutionCompletedTimestamp := None;
               OutputUploadStartTimestamp := None;
               OutputUploadCompletedTimestamp := None |} |}.

(** *** [GetActionResult] *)

(** [fmt.Sprintf("ActionResult (%s) not found: %s", d, err)]. *)
Definition not_found_msg (d : Digest) (err : error) : string :=
  ("ActionResult (" +:+ fmt_s (env s) d +:+ ") not found")
    +:+ (": " +:+ error_Error (env s) err).

Definition GetActionResult (ctx : Ctx) (req : GetActionResultRequest)
  : M St Ctx ActionResult :=
  match Get_ActionDigest req with
  | None => fail (status_InvalidArgumentError "ActionDigest is a required field")
  | Some d =>
      liftE (digest_Validate (env s) d) ;;;
      let ctx := perms_AttachUserPrefixToContext (env s) ctx in
      blob <- mapError (fun err => status_NotFoundError (not_found_msg d err))
                (Get ctx (Some d)) ;;
      rsp <- liftPlain (proto_Unmarshal_ActionResult (env s) blob) ;;
      mapError (fun err => status_NotFoundError (not_found_msg d err))
        (validateActionResult ctx rsp) ;;;
      ret rsp
  end.

(** *** [UpdateActionResult] *)

Definition UpdateActionResult (ctx : Ctx) (req : UpdateActionResultRequest)
  : M St Ctx ActionResult :=
  match Update_ActionDigest req with
  | None => fail (status_InvalidArgumentError "ActionDigest is a required field")
  | Some d =>
      match Update_ActionResult req with
      | None => fail (status_InvalidArgumentError "ActionResult is a required field")
      | Some ar =>
          liftE (digest_Validate (env s) d) ;;;
          let ctx := perms_AttachUserPrefixToContext (env s) ctx in
          let ar := setWorkerMetadata ar in
          blob <- liftPlain (proto_Marshal (env s) ar) ;;
          Set_ ctx d blob ;;;
          ret ar
      end
  end.
End Server.

(** ** A reference environment

    An in-memory cache and a table-driven codec, used to run the handlers
    on concrete requests. *)
Module Mem.

(** The context carries the caller's prefix. *)
Definition Ctx := string.
(** The store lists the blobs with their prefixed keys, the last written
    first. *)
Definition St := list (string * Digest * bytes).

Definition key (prefix : string) (ctx : Ctx) (d : Digest) : string * Digest :=
  (prefix +:+ ctx, d).

Fixpoint blob_at (k : string * Digest) (st : St) : option bytes :=
  match st with
  | [] => None
  | (k', blob) :: rest => if decide (k' = k) then Some blob else blob_at k rest
  end.

(** Modelled from the spec: the digest cache is outside this file; it
    offers a single get, a single set and a batched existence query that
    returns an entry for every digest it was asked about. *)
Definition digestCache (prefix : string) : DigestCache St Ctx :=
  {| cache_Get := fun st ctx d =>
       match d with
       | None => inl (StatusError InvalidArgument "nil digest")
       | Some d =>
           match blob_at (key prefix ctx d) st with
           | Some blob => inr blob
           | None => inl (StatusError NotFound "key not in cache")
           end
       end;
     cache_Set := fun st ctx d blob => inr ((key prefix ctx d, blob) :: st);
     cache_ContainsMulti := fun st ctx digests =>
       inr (list_to_map
              (map (fun d => (d, bool_decide (is_Some (blob_at (key prefix ctx d) st))))
                   digests)) |}.

(** A codec given by a finite table of messages and their encodings. *)
Fixpoint encode_with {A} `{EqDecision A} (tbl : list (A * bytes)) (a : A)
  : string + bytes :=
  match tbl with
  | [] => inl "proto: cannot encode"
  | (a', b) :: rest => if decide (a' = a) then inr b else encode_with rest a
  end.

Fixpoint decode_with {A} (tbl : list (A * bytes)) (b : bytes) : string + A :=
  match tbl with
  | [] => inl "proto: cannot parse invalid wire-format data"
  | (a, b') :: rest => if decide (b' = b) then inr a else decode_with rest b
  end.

Definition code_name (c : Code) : string :=
  match c with
  | InvalidArgument => "InvalidArgument"
  | NotFound => "NotFound"
  | Internal => "Internal"
  | FailedPrecondition => "FailedPrecondition"
  | ResourceExhausted => "ResourceExhausted"
  | Unavailable => "Unavailable"
  end.

Definition error_text (e : error) : string :=
  match e with
  | StatusError c msg => "rpc error: code = " +:+ code_name c +:+ " desc = " +:+ msg
  | PlainError msg => msg
  end.

Definition validate (d : Digest) : error + string :=
  if decide (Hash d = "") then
    inl (StatusError InvalidArgument "Invalid (zero-length) SHA256 hash")
  else inr (Hash d).

Definition mkEnvWith (c : string -> option (DigestCache St Ctx))
    (results : list (ActionResult * bytes)) (trees : list (Tree * bytes))
  : Env St Ctx :=
  {| GetDigestCache := Some c;
     perms_AttachUserPrefixToContext := fun ctx => "user1/" +:+ ctx;
     digest_Validate := validate;
     proto_Marshal := encode_with results;
     proto_Unmarshal_ActionResult := decode_with results;
     proto_Unmarshal_Tree := decode_with trees;
     fmt_s := fun d => Hash d;
     fmt_q := fun d => "<" +:+ Hash d +:+ ">";
     error_Error := error_text;
     NodeID_base64 := "bm9kZTAx" |}.

Definition environment := mkEnvWith (fun p => Some (digestCache p)).

(** The server [NewActionCacheServer] builds on this environment. *)
Definition server (results : list (ActionResult * bytes))
    (trees : list (Tree * bytes)) : ActionCacheServer St Ctx :=
  mkActionCacheServer (environment results trees) (digestCache acCachePrefix).

(** A server whose cache is the given one. *)
Definition serverWith (c : DigestCache St Ctx)
    (results : list (ActionResult * bytes)) (trees : list (Tree * bytes))
  : ActionCacheServer St Ctx :=
  mkActionCacheServer (mkEnvWith (fun _ => Some c) results trees) c.

(** Some digests and blobs. *)
Definition dA : Digest := mkDigest "aaaa" 3.
Definition dB : Digest := mkDigest "bbbb" 5.
Definition dT : Digest := mkDigest "tttt" 7.
Definition dAction : Digest := mkDigest "ac01" 42.
Definition dEmpty : Digest := mkDigest "e3b0" 0.
Definition dNeg : Digest := mkDigest "nnnn" (-1).

Definition blobA : bytes := [x61; x62; x63].
Definition blobB : bytes := [x62; x62; x62; x62; x62].
Definition blobT : bytes := [x0a; x00; x12; x00; x01; x02; x03].
Definition blobR : bytes := [x12; x34].
Definition blobR' : bytes := [x56; x78].

End Mem.

(** ** Vocabulary of the statements *)

Section Vocabulary.
Context {St Ctx : Type}.
Variable s : ActionCacheServer St Ctx.
Implicit Types (st : St) (ctx : Ctx).

(** A computation that leaves the store as it found it. *)
Definition read_only {A} (m : M St Ctx A) : Prop :=
  forall st, store (m st) = st.

(** The calls made by running [f] on each element of [l] from [st]. *)
Definition calls_of {A} (f : A -> M St Ctx unit) st (l : list A)
  : list (Event Ctx) :=
  concat (map (fun x => calls (f x st)) l).

(** The [ContainsMulti] call that checks one directory. *)
Definition dirQuery ctx (dir : option Directory) : Event Ctx :=
  EvContainsMulti ctx (dirDigests (GetFiles dir)).

(** The directories of a tree in the order they are checked. *)
Definition treeDirs (tree : Tree) : list (option Directory) :=
  Root tree :: map Some (Children tree).

Definition is_Set (ev : Event Ctx) : Prop :=
  match ev with
  | EvSet _ _ _ => True
  | _ => False
  end.

(** The action result with the given execution metadata. *)
Definition with_metadata (em : option ExecutedActionMetadata) (ar : ActionResult)
  : ActionResult :=
  {| OutputFiles := OutputFiles ar;
     OutputDirectories := OutputDirectories ar;
     ExitCode := ExitCode ar;
     StdoutRaw := StdoutRaw ar;
     StdoutDigest := StdoutDigest ar;
     StderrRaw := StderrRaw ar;
     StderrDigest := StderrDigest ar;
     ExecutionMetadata := em |}.

(** The reading of "unchanged except for the worker field": the message
    with its worker set to [w] and every other field, the other fields
    of the execution metadata included, as it was. *)
Definition with_worker (w : string) (r : ActionResult) : ActionResult :=
  with_metadata
    (Some match ExecutionMetadata r with
          | Some m =>
              {| Worker := w;
                 QueuedTimestamp := QueuedTimestamp m;
                 WorkerStartTimestamp := WorkerStartTimestamp m;
                 WorkerCompletedTimestamp := WorkerCompletedTimestamp m;
                 InputFetchStartTimestamp := InputFetchStartTimestamp m;
                 InputFetchCompletedTimestamp := InputFetchCompletedTimestamp m;
                 ExecutionStartTimestamp := ExecutionStartTimestamp m;
                 ExecutionCompletedTimestamp := ExecutionCompletedTimestamp m;
                 OutputUploadStartTimestamp := OutputUploadStartTimestamp m;
                 OutputUploadCompletedTimestamp := OutputUploadCompletedTimestamp m |}
          | None =>
              mkExecutedActionMetadata w None None None None None None None None None
          end) r.

(** The context the handlers hand to the cache. *)
Definition scoped ctx : Ctx := perms_AttachUserPrefixToContext (env s) ctx.

(** The server with the same environment and the same [Set], and with
    the given [Get] and [ContainsMulti] in place of its own. *)
Definition with_reads
    (get : St -> Ctx -> option Digest -> error + bytes)
    (containsMulti : St -> Ctx -> list Digest -> error + gmap Digest bool)
  : ActionCacheServer St Ctx :=
  mkActionCacheServer (env s)
    {| cache_Get := get;
       cache_Set := cache_Set (cache s);
       cache_ContainsMulti := containsMulti |}.

(** Whether the cache returns a blob for the digest. *)
Definition contains st ctx (d : Digest) : bool :=
  match cache_Get (cache s) st ctx (Some d) with
  | inr _ => true
  | inl _ => false
  end.

(** The contract of [ContainsMulti]: an entry for every digest asked
    about, which tells whether the cache holds it. *)
Definition ContainsMulti_faithful st ctx : Prop :=
  forall digests, exists foundMap,
    cache_ContainsMulti (cache s) st ctx digests = inr foundMap
    /\ forall d, d ∈ digests -> foundMap !! d = Some (contains st ctx d).

(** Every output the result refers to is in the cache: the digest of
    every output file, the tree blob of every output directory, which
    decodes, and the digest of every file of the root and of the children
    of that tree. *)
Definition outputs_present st ctx (r : ActionResult) : Prop :=
  (forall f d, f ∈ OutputFiles r -> OutputFile_Digest f = Some d ->
               contains st ctx d = true)
  /\ (forall od, od ∈ OutputDirectories r ->
        exists blob tree,
          cache_Get (cache s) st ctx (OutputDirectory_TreeDigest od) = inr blob
          /\ proto_Unmarshal_Tree (env s) blob = inr tree
          /\ forall dir f d, dir ∈ treeDirs tree -> f ∈ GetFiles dir ->
               FileNode_Digest f = Some d -> contains st ctx d = true).

(** The context a call to the cache was made in. *)
Definition event_ctx (ev : Event Ctx) : Ctx :=
  match ev with
  | EvGet ctx _ => ctx
  | EvSet ctx _ _ => ctx
  | EvContainsMulti ctx _ => ctx
  end.

(** A read made in the context [ctx]. *)
Definition read_in ctx (ev : Event Ctx) : Prop :=
  ~ is_Set ev /\ event_ctx ev = ctx.

(** What the validation looks at, and no more: the digest of every output
    file that has inlined content and a digest of positive size, the tree
    blob of every output directory, which decodes, and every digest that
    is set on a file of the root or of a child of that tree. *)
Definition validated_present st ctx (r : ActionResult) : Prop :=
  (forall f d, f ∈ OutputFiles r -> OutputFile_Digest f = Some d ->
               OutputFile_Contents f <> [] -> 0 < SizeBytes d ->
               contains st ctx d = true)
  /\ (forall od, od ∈ OutputDirectories r ->
        exists blob tree,
          cache_Get (cache s) st ctx (OutputDirectory_TreeDigest od) = inr blob
          /\ proto_Unmarshal_Tree (env s) blob = inr tree
          /\ forall dir f d, dir ∈ treeDirs tree -> f ∈ GetFiles dir ->
               FileNode_Digest f = Some d -> contains st ctx d = true).

(** The tree an output directory points to, when the cache returns its
    blob and the blob decodes. *)
Definition decoded_tree st ctx (od : OutputDirectory) : option Tree :=
  match cache_Get (cache s) st ctx (OutputDirectory_TreeDigest od) with
  | inl _ => None
  | inr blob =>
      match proto_Unmarshal_Tree (env s) blob with
      | inl _ => None
      | inr tree => Some tree
      end
  end.

(** The calls a successful walk of an output directory costs: one get and
    one existence query for the root and for each child. *)
Definition walk_cost st ctx (od : OutputDirectory) : nat :=
  match decoded_tree st ctx od with
  | Some tree => 2 + length (Children tree)
  | None => 0
  end.
End Vocabulary.

(** A cache that breaks the contract of [ContainsMulti]: whatever it is
    asked, it answers with the one entry [dA ↦ false]. *)
Definition partialCache : DigestCache Mem.St Mem.Ctx :=
  {| cache_Get := cache_Get (Mem.digestCache acCachePrefix);
     cache_Set := cache_Set (Mem.digestCache acCachePrefix);
     cache_ContainsMulti := fun _ _ _ => inr {[ Mem.dA := false ]} |}.

(** A cache that is full: every [Set] is refused. *)
Definition fullCache : DigestCache Mem.St Mem.Ctx :=
  {| cache_Get := cache_Get (Mem.digestCache acCachePrefix);
     cache_Set := fun _ _ _ _ => inl (StatusError ResourceExhausted "cache is full");
     cache_ContainsMulti := cache_ContainsMulti (Mem.digestCache acCachePrefix) |}.

(** ** A stored result with an output directory

    The tree has two children; the files of the first are in the cache,
    the file of the second is not. *)
Module Scenario.
Import Mem.

Definition D1 : Directory := mkDirectory [mkFileNode "a.o" (Some dA) false] [].
Definition D2 : Directory := mkDirectory [mkFileNode "b.o" (Some dB) true] [].
Definition T : Tree :=
  mkTree (Some (mkDirectory [] [mkDirectoryNode "d1" None;
                                mkDirectoryNode "d2" None]))
         [D1; D2].

Definition out : OutputDirectory := mkOutputDirectory "bazel-out" (Some dT).
Definition r : ActionResult := mkActionResult [] [out] 0 [] None [] None None.

Definition srv : ActionCacheServer St Ctx := server [] [(T, blobT)].

(** The tree blob and the blob of [dA] are stored; no blob for [dB]. *)
Definition st : St :=
  [(key acCachePrefix "" dT, blobT); (key acCachePrefix "" dA, blobA)].

(** The same with the blob of [dB] stored as well. *)
Definition st_full : St := (key acCachePrefix "" dB, blobB) :: st.
End Scenario.

(** ** A written result and the caches it is read from *)

Module Written.
Import Mem.

(** What a client sends: the result of [Scenario], with execution
    metadata of its own. *)
Definition queued : Timestamp := mkTimestamp 1600000000 0.
Definition r_client : ActionResult :=
  mkActionResult [mkOutputFile "a.o" (Some dA) false blobA] [Scenario.out]
    0 [] None [] None
    (Some (mkExecutedActionMetadata "forged-worker" (Some queued)
             None None None None None None None None)).

(** What the server stores and returns for it. *)
Definition stamped : ActionResult :=
  mkActionResult [mkOutputFile "a.o" (Some dA) false blobA] [Scenario.out]
    0 [] None [] None
    (Some (mkExecutedActionMetadata "bm9kZTAx" None
             None None None None None None None None)).

Definition srv : ActionCacheServer St Ctx :=
  server [(stamped, blobR)] [(Scenario.T, blobT)].

Definition update : UpdateActionResultRequest :=
  mkUpdateActionResultRequest "main" (Some dAction) (Some r_client).
Definition get : GetActionResultRequest :=
  mkGetActionResultRequest "main" (Some dAction).

(** The cache of the caller [user1] before the update: the tree and the
    three blobs the result refers to. *)
Definition st : St :=
  [(key acCachePrefix "user1/" dT, blobT);
   (key acCachePrefix "user1/" dA, blobA);
   (key acCachePrefix "user1/" dB, blobB)].

(** The same cache once the blob of [dB] has been evicted. *)
Definition st_evicted : St :=
  [(key acCachePrefix "user1/" dT, blobT);
   (key acCachePrefix "user1/" dA, blobA)].

(** A cache in which the entry of the action holds bytes that are not an
    action result. *)
Definition st_garbled : St := (key acCachePrefix "user1/" dAction, [xff]) :: st.

(** The cache after the update: the entry of the action on top. *)
Definition st_written : St := (key acCachePrefix "user1/" dAction, blobR) :: st.

(** A digest without a hash. *)
Definition no_hash : Digest := mkDigest "" 0.

(** A result whose output file is referred to by digest only. *)
Definition r_by_digest : ActionResult :=
  mkActionResult [mkOutputFile "b.o" (Some dB) false []] [] 0 [] None [] None None.

(** The server of [srv] on a cache that is full. *)
Definition srv_full : ActionCacheServer St Ctx :=
  serverWith fullCache [(stamped, blobR)] [(Scenario.T, blobT)].
End Written.

(** * Properties *)

Ltac elem_cases H :=
  repeat (apply elem_of_cons in H as [->|H]); try (by apply elem_of_nil in H).

Lemma NewActionCacheServer_Mem results trees :
  NewActionCacheServer (Mem.environment results trees)
  = Returns (inr (Mem.server results trees)).
Proof. reflexivity. Qed.

(** ** The monad *)

Section MonadFacts.
Context {St Ctx : Type}.
Implicit Types st : St.

Lemma read_only_ret {A} (a : A) : read_only (ret a : M St Ctx A).
Proof. by intros st. Qed.

Lemma read_only_liftE {A} (r : error + A) : read_only (liftE r : M St Ctx A).
Proof. by intros st. Qed.

Lemma read_only_liftPlain {A} (r : string + A) :
  read_only (liftPlain r : M St Ctx A).
Proof. by destruct r; intros st. Qed.

Lemma read_only_bind {A B} (m : M St Ctx A) (k : A -> M St Ctx B) :
  read_only m -> (forall a, read_only (k a)) -> read_only (bind m k).
Proof.
  intros Hm Hk st. unfold bind.
  destruct (result (m st)) as [e|a]; simpl; [apply Hm|].
  rewrite Hm. apply Hk.
Qed.

Lemma read_only_forM_ {A} (l : list A) (f : A -> M St Ctx unit) :
  (forall x, read_only (f x)) -> read_only (forM_ l f).
Proof.
  intros Hf. induction l as [|x l IH]; simpl.
  - apply read_only_ret.
  - apply read_only_bind; auto.
Qed.

Lemma bind_inl {A B} (m : M St Ctx A) (k : A -> M St Ctx B) st e :
  result (m st) = inl e ->
  bind m k st = mkRun (inl e) (store (m st)) (calls (m st)).
Proof. intros H. unfold bind. by rewrite H. Qed.

Lemma bind_inr {A B} (m : M St Ctx A) (k : A -> M St Ctx B) st a :
  result (m st) = inr a ->
  bind m k st
  = mkRun (result (k a (store (m st)))) (store (k a (store (m st))))
          (calls (m st) ++ calls (k a (store (m st)))).
Proof. intros H. unfold bind. by rewrite H. Qed.

(** A loop whose body only reads stops at the first element on which the
    body fails: it returns that error and has made the calls of the
    elements before it and of that element, and no other. *)
Lemma forM__stops {A} (f : A -> M St Ctx unit) st (pre post : list A) x e :
  (forall y, read_only (f y)) ->
  (forall y, y ∈ pre -> result (f y st) = inr tt) ->
  result (f x st) = inl e ->
  result (forM_ (pre ++ x :: post) f st) = inl e
  /\ calls (forM_ (pre ++ x :: post) f st) = calls_of f st pre ++ calls (f x st).
Proof.
  intros Hro Hpre Hx. induction pre as [|y pre IH]; simpl.
  - rewrite (bind_inl _ _ _ _ Hx). done.
  - assert (Hy : result (f y st) = inr tt) by (apply Hpre; left).
    rewrite (bind_inr _ _ _ _ Hy). simpl. rewrite Hro.
    destruct IH as [IH1 IH2]; [intros z Hz; apply Hpre; by right|].
    rewrite IH1, IH2. unfold calls_of. simpl. by rewrite <- app_assoc.
Qed.

(** When the body succeeds on every element, so does the loop, after the
    calls of every element in order. *)
Lemma forM__all {A} (f : A -> M St Ctx unit) st (l : list A) :
  (forall y, read_only (f y)) ->
  (forall y, y ∈ l -> result (f y st) = inr tt) ->
  result (forM_ l f st) = inr tt
  /\ calls (forM_ l f st) = calls_of f st l.
Proof.
  intros Hro Hl. induction l as [|y l IH]; simpl; [done|].
  assert (Hy : result (f y st) = inr tt) by (apply Hl; left).
  rewrite (bind_inr _ _ _ _ Hy). simpl. rewrite Hro.
  destruct IH as [IH1 IH2]; [intros z Hz; apply Hl; by right|].
  by rewrite IH1, IH2.
Qed.
End MonadFacts.

(** ** [checkFilesExist] *)

Section CheckFilesExist.
Context {St Ctx : Type}.
Variable s : ActionCacheServer St Ctx.
Implicit Types (st : St) (ctx : Ctx) (digests : list Digest).
Implicit Types foundMap : gmap Digest bool.

(** One run of [checkFilesExist]: a single [ContainsMulti] carrying the
    whole slice, the store untouched, and the verdict of the loop. *)
Lemma checkFilesExist_run ctx digests st :
  checkFilesExist s ctx digests st
  = mkRun (match cache_ContainsMulti (cache s) st ctx digests with
           | inl e => inl e
           | inr foundMap => checkFound s foundMap digests
           end) st [EvContainsMulti ctx digests].
Proof.
  unfold checkFilesExist, bind, ContainsMulti, liftE. simpl.
  by destruct (cache_ContainsMulti _ _ _ _).
Qed.

Lemma read_only_checkFilesExist ctx digests :
  read_only (checkFilesExist s ctx digests).
Proof. intros st. by rewrite checkFilesExist_run. Qed.

Lemma checkFound_ok foundMap digests :
  checkFound s foundMap digests = inr tt
  <-> forall d, d ∈ digests -> foundMap !! d = Some true.
Proof.
  induction digests as [|d rest IH]; simpl.
  - split; [|done]. intros _ d Hd. by apply elem_of_nil in Hd.
  - destruct (foundMap !! d) as [[|]|] eqn:Hd.
    + rewrite IH. split.
      * intros H x Hx. apply elem_of_cons in Hx as [->|Hx]; auto.
      * intros H x Hx. apply H. by right.
    + split; [done|]. intros H.
      specialize (H d (list_elem_of_here _ _)). congruence.
    + split; [done|]. intros H.
      specialize (H d (list_elem_of_here _ _)). congruence.
Qed.

(** The loop stops at the first digest that is not mapped to [true]. *)
Lemma checkFound_first foundMap pre d post :
  (forall x, x ∈ pre -> foundMap !! x = Some true) ->
  checkFound s foundMap (pre ++ d :: post)
  = match foundMap !! d with
    | None => inl (status_InternalError (missing_msg s d))
    | Some false => inl (status_NotFoundError (not_in_cache_msg s d))
    | Some true => checkFound s foundMap post
    end.
Proof.
  intros Hpre. induction pre as [|x pre IH]; simpl; [done|].
  rewrite (Hpre x (list_elem_of_here _ _)). apply IH.
  intros y Hy. apply Hpre. by right.
Qed.

(** A slice in which some digest is not mapped to [true] splits at the
    first such digest. *)
Lemma first_not_found foundMap digests :
  (exists d, d ∈ digests /\ foundMap !! d <> Some true) ->
  exists pre d post,
    digests = pre ++ d :: post
    /\ (forall x, x ∈ pre -> foundMap !! x = Some true)
    /\ foundMap !! d <> Some true.
Proof.
  induction digests as [|x rest IH]; intros (d & Hd & Hne).
  - by apply elem_of_nil in Hd.
  - destruct (decide (foundMap !! x = Some true)) as [Hx|Hx].
    + apply elem_of_cons in Hd as [->|Hd]; [done|].
      destruct IH as (pre & d' & post & -> & Hpre & Hd'); [eauto|].
      exists (x :: pre), d', post. split; [done|]. split; [|done].
      intros y Hy. apply elem_of_cons in Hy as [->|Hy]; auto.
    + exists [], x, rest. split; [done|]. split; [|done].
      intros y Hy. by apply elem_of_nil in Hy.
Qed.

(** C3 (as amended).  When [ContainsMulti] returns a mapping,
    [checkFilesExist] scans the requested digests in order and stops at
    the first one that is not mapped to present: it returns [Internal]
    when that digest has no entry and [NotFound], naming that digest,
    when its entry says not found.  It returns ok exactly when every
    requested digest is mapped to present; and when every requested
    digest has an entry but some entry says not found, the result is
    [NotFound] naming such a digest. *)
Theorem checkFilesExist_first_failure
    (ctx : Ctx) (st : St) (digests : list Digest) (foundMap : gmap Digest bool) :
  cache_ContainsMulti (cache s) st ctx digests = inr foundMap ->
  (result (checkFilesExist s ctx digests st) = inr tt
   <-> forall d, d ∈ digests -> foundMap !! d = Some true)
  /\ (forall pre d post,
        digests = pre ++ d :: post ->
        (forall x, x ∈ pre -> foundMap !! x = Some true) ->
        (foundMap !! d = None ->
         result (checkFilesExist s ctx digests st)
         = inl (StatusError Internal (missing_msg s d)))
        /\ (foundMap !! d = Some false ->
            result (checkFilesExist s ctx digests st)
            = inl (StatusError NotFound (not_in_cache_msg s d))))
  /\ ((forall d, d ∈ digests -> is_Some (foundMap !! d)) ->
      (exists d, d ∈ digests /\ foundMap !! d = Some false) ->
      exists d, d ∈ digests /\ foundMap !! d = Some false
        /\ result (checkFilesExist s ctx digests st)
           = inl (StatusError NotFound (not_in_cache_msg s d))).
Proof.
  intros Hcm. rewrite checkFilesExist_run, Hcm. simpl.
  split; [apply checkFound_ok|]. split.
  - intros pre d post -> Hpre. rewrite (checkFound_first _ _ _ _ Hpre).
    split; intros ->; done.
  - intros Hall (d0 & Hd0 & Hfalse).
    destruct (first_not_found foundMap digests) as (pre & d & post & -> & Hpre & Hd).
    { exists d0. split; [done|]. congruence. }
    assert (Hin : d ∈ pre ++ d :: post).
    { apply elem_of_app. right. left. }
    destruct (Hall d Hin) as [b Hb]. destruct b; [congruence|].
    exists d. split; [done|]. split; [done|].
    rewrite (checkFound_first _ _ _ _ Hpre). by rewrite Hb.
Qed.
End CheckFilesExist.

(** C3 (as stated) fails: the mapping lacks an entry for the requested
    digest [dB], and yet the error is [NotFound] (for [dA], which comes
    first and is marked not found), not [Internal]. *)
Lemma checkFilesExist_missing_entry_not_Internal :
  let srv := Mem.serverWith partialCache [] [] in
  let foundMap : gmap Digest bool := {[ Mem.dA := false ]} in
  cache_ContainsMulti (cache srv) [] "" [Mem.dA; Mem.dB] = inr foundMap
  /\ Mem.dB ∈ [Mem.dA; Mem.dB]
  /\ foundMap !! Mem.dB = None
  /\ result (checkFilesExist srv "" [Mem.dA; Mem.dB] [])
     = inl (StatusError NotFound "ActionResult output file: 'aaaa' not found in cache")
  /\ ~ (exists msg, result (checkFilesExist srv "" [Mem.dA; Mem.dB] [])
                    = inl (StatusError Internal msg)).
Proof.
  simpl. split; [done|]. split; [set_solver|]. split; [by vm_compute|].
  split; [by vm_compute|]. intros [msg H]. vm_compute in H. discriminate.
Qed.

Lemma checkFilesExist_first_failure_witness :
  let srv := Mem.server [] [] in
  let st : Mem.St := [(Mem.key acCachePrefix "" Mem.dA, Mem.blobA)] in
  result (checkFilesExist srv "" [Mem.dA; Mem.dB] st)
  = inl (StatusError NotFound "ActionResult output file: 'bbbb' not found in cache").
Proof.
  intros srv st.
  pose (foundMap := list_to_map [(Mem.dA, true); (Mem.dB, false)] : gmap Digest bool).
  assert (Hcm : cache_ContainsMulti (cache srv) st "" [Mem.dA; Mem.dB] = inr foundMap)
    by reflexivity.
  destruct (checkFilesExist_first_failure srv "" st [Mem.dA; Mem.dB] foundMap Hcm)
    as (_ & Hfirst & _).
  destruct (Hfirst [Mem.dA] Mem.dB [] eq_refl) as [_ Hnf].
  - intros x Hx. apply list_elem_of_singleton in Hx as ->. by vm_compute.
  - apply Hnf. by vm_compute.
Defined.

(** ** The digests put in a batch *)

Section Batches.
Context {St Ctx : Type}.
Variable s : ActionCacheServer St Ctx.
Implicit Types (st : St) (ctx : Ctx).

Lemma checked_spec (f : OutputFile) :
  checked f = true
  <-> OutputFile_Contents f <> [] /\ 0 < GetSizeBytes (OutputFile_Digest f).
Proof.
  unfold checked. rewrite andb_true_iff, !bool_decide_eq_true.
  destruct (OutputFile_Contents f); simpl; split; intros [H1 H2];
    split; try done; lia.
Qed.

(** The first loop keeps the digest of exactly the output files with
    inlined content and a digest of positive size. *)
Lemma elem_of_outputFileDigests (files : list OutputFile) (d : Digest) :
  d ∈ outputFileDigests files
  <-> exists f, f ∈ files /\ OutputFile_Digest f = Some d
                /\ OutputFile_Contents f <> [] /\ 0 < SizeBytes d.
Proof.
  induction files as [|f rest IH]; simpl.
  - split; [intros H; by apply elem_of_nil in H|].
    intros (f & H & _). by apply elem_of_nil in H.
  - destruct (checked f) eqn:Hc.
    + apply checked_spec in Hc as [Hc1 Hc2].
      destruct (OutputFile_Digest f) as [d'|] eqn:Hd; simpl in Hc2; [|lia].
      rewrite elem_of_cons, IH. split.
      * intros [->|(f' & Hf' & H)].
        -- exists f. split; [left|]. done.
        -- exists f'. split; [by right|done].
      * intros (f' & Hf' & Hd' & H).
        apply elem_of_cons in Hf' as [->|Hf'].
        -- left. congruence.
        -- right. eauto.
    + rewrite IH. split.
      * intros (f' & Hf' & H). exists f'. split; [by right|done].
      * intros (f' & Hf' & Hd' & H1 & H2).
        apply elem_of_cons in Hf' as [->|Hf']; [|eauto].
        assert (checked f = true); [|congruence].
        apply checked_spec. rewrite Hd'. done.
Qed.

Lemma outputFileDigests_omap (files : list OutputFile) :
  outputFileDigests files
  = omap OutputFile_Digest (filter (fun f => checked f = true) files).
Proof.
  induction files as [|f rest IH]; simpl; [done|].
  rewrite filter_cons. destruct (checked f) eqn:Hc.
  - rewrite decide_True by done. simpl.
    destruct (OutputFile_Digest f); simpl; by rewrite IH.
  - rewrite decide_False by done. done.
Qed.

(** The loop of [checkDirExists] keeps every digest that is set, whatever
    its size. *)
Lemma elem_of_dirDigests (files : list FileNode) (d : Digest) :
  d ∈ dirDigests files
  <-> exists f, f ∈ files /\ FileNode_Digest f = Some d.
Proof.
  induction files as [|f rest IH]; simpl.
  - split; [intros H; by apply elem_of_nil in H|].
    intros (f & H & _). by apply elem_of_nil in H.
  - destruct (FileNode_Digest f) as [d'|] eqn:Hd.
    + rewrite elem_of_cons, IH. split.
      * intros [->|(f' & Hf' & H)]; [exists f; split; [left|done]|].
        exists f'. split; [by right|done].
      * intros (f' & Hf' & Hd').
        apply elem_of_cons in Hf' as [->|Hf']; [left; congruence|right; eauto].
    + rewrite IH. split.
      * intros (f' & Hf' & H). exists f'. split; [by right|done].
      * intros (f' & Hf' & Hd').
        apply elem_of_cons in Hf' as [->|Hf']; [congruence|eauto].
Qed.

Lemma dirDigests_omap (files : list FileNode) :
  dirDigests files = omap FileNode_Digest files.
Proof.
  induction files as [|f rest IH]; simpl; [done|].
  destruct (FileNode_Digest f); by rewrite IH.
Qed.

Lemma read_only_checkDirExists ctx dir : read_only (checkDirExists s ctx dir).
Proof. apply read_only_checkFilesExist. Qed.

Lemma read_only_Get ctx d : read_only (Get s ctx d).
Proof. by intros st. Qed.

Lemma read_only_validateOutputDirectory ctx d :
  read_only (validateOutputDirectory s ctx d).
Proof.
  unfold validateOutputDirectory.
  apply read_only_bind; [apply read_only_Get|]. intros blob.
  apply read_only_bind; [apply read_only_liftPlain|]. intros tree.
  apply read_only_bind; [apply read_only_checkDirExists|]. intros _.
  apply read_only_forM_. intros c. apply read_only_checkDirExists.
Qed.

Lemma read_only_validateActionResult ctx r :
  read_only (validateActionResult s ctx r).
Proof.
  unfold validateActionResult.
  apply read_only_bind; [apply read_only_checkFilesExist|]. intros _.
  apply read_only_forM_. intros d. apply read_only_validateOutputDirectory.
Qed.

(** C4.  The output-file step of [validateActionResult] is one
    [ContainsMulti] call, the first call of the validation; the
    directories are looked at only if it succeeds.  The call carries the
    digests of exactly the output files whose inlined content is
    non-empty and whose digest size is positive, in order; when no size is
    negative these are exactly the output files whose inlined content is
    non-empty and whose digest size is not zero. *)
Theorem validateActionResult_output_file_batch ctx (r : ActionResult) st :
  let batch := outputFileDigests (OutputFiles r) in
  calls (checkFilesExist s ctx batch st) = [EvContainsMulti ctx batch]
  /\ calls (validateActionResult s ctx r st)
     = EvContainsMulti ctx batch ::
       match result (checkFilesExist s ctx batch st) with
       | inl _ => []
       | inr _ => calls (forM_ (OutputDirectories r)
                           (validateOutputDirectory s ctx) st)
       end
  /\ (forall d, d ∈ batch
        <-> exists f, f ∈ OutputFiles r /\ OutputFile_Digest f = Some d
                      /\ OutputFile_Contents f <> [] /\ 0 < SizeBytes d)
  /\ batch = omap OutputFile_Digest
               (filter (fun f => checked f = true) (OutputFiles r))
  /\ ((forall f, f ∈ OutputFiles r -> 0 <= GetSizeBytes (OutputFile_Digest f)) ->
      forall d, d ∈ batch
        <-> exists f, f ∈ OutputFiles r /\ OutputFile_Digest f = Some d
                      /\ OutputFile_Contents f <> [] /\ SizeBytes d <> 0).
Proof.
  intros batch. split; [by rewrite checkFilesExist_run|]. split.
  - unfold validateActionResult, bind. fold batch.
    rewrite (read_only_checkFilesExist s ctx batch st).
    rewrite checkFilesExist_run. simpl.
    by destruct (match cache_ContainsMulti _ _ _ _ with
                 | inl e => inl e | inr m => checkFound s m batch end).
  - split; [apply elem_of_outputFileDigests|].
    split; [apply outputFileDigests_omap|].
    intros Hsizes d. unfold batch. rewrite elem_of_outputFileDigests. split.
    + intros (f & Hf & Hd & Hc & Hsz). exists f. repeat split; try done. lia.
    + intros (f & Hf & Hd & Hc & Hsz). exists f. repeat split; try done.
      specialize (Hsizes f Hf). rewrite Hd in Hsizes. simpl in Hsizes. lia.
Qed.
End Batches.

(** A size below zero is not positive: an output file with inlined content
    and such a digest is left out of the batch like one of size zero. *)
Example negative_size_not_in_batch :
  let srv := Mem.server [] [] in
  let f := mkOutputFile "out/a" (Some Mem.dNeg) false [x01] in
  let r := mkActionResult [f] [] 0 [] None [] None None in
  f ∈ OutputFiles r
  /\ OutputFile_Contents f <> []
  /\ GetSizeBytes (OutputFile_Digest f) <> 0
  /\ calls (validateActionResult srv "" r []) = [EvContainsMulti "" []]
  /\ Mem.dNeg ∉ outputFileDigests (OutputFiles r).
Proof.
  simpl. split; [set_solver|]. split; [done|]. split; [done|].
  split; [by vm_compute|]. vm_compute. apply not_elem_of_nil.
Qed.

Lemma validateActionResult_output_file_batch_witness :
  Mem.dA ∈ outputFileDigests (OutputFiles Written.r_client).
Proof.
  destruct (validateActionResult_output_file_batch Written.srv "user1/"
              Written.r_client Written.st) as (_ & _ & _ & _ & Hnonzero).
  apply Hnonzero.
  - intros f Hf. simpl in Hf. elem_cases Hf. simpl. lia.
  - exists (mkOutputFile "a.o" (Some Mem.dA) false Mem.blobA).
    split; [left|]. split; [reflexivity|]. split; [discriminate|].
    simpl. lia.
Defined.

(** C2 (where the code departs from it).  Unset digests are left out of
    the batch on both paths and digests of size zero on the output-file
    path (see [elem_of_dirDigests] and [elem_of_outputFileDigests]); but
    the check of a directory looks up every digest that is set, also one
    of size zero.  On this directory, whose second file is the empty file,
    the batch holds the digest of size zero, and the check fails because
    no blob is stored for it. *)
Theorem checkDirExists_queries_empty_digest :
  let srv := Mem.server [] [] in
  let dir := mkDirectory [mkFileNode "a.txt" (Some Mem.dA) false;
                          mkFileNode "empty" (Some Mem.dEmpty) false] [] in
  let st : Mem.St := [(Mem.key acCachePrefix "" Mem.dA, Mem.blobA)] in
  SizeBytes Mem.dEmpty = 0
  /\ calls (checkDirExists srv "" (Some dir) st)
     = [EvContainsMulti "" [Mem.dA; Mem.dEmpty]]
  /\ result (checkDirExists srv "" (Some dir) st)
     = inl (StatusError NotFound
              "ActionResult output file: 'e3b0' not found in cache").
Proof. simpl. split; [done|]. split; by vm_compute. Qed.

(** ** The walk over the output directories *)

Section Directories.
Context {St Ctx : Type}.
Variable s : ActionCacheServer St Ctx.
Implicit Types (st : St) (ctx : Ctx).

Lemma forM__map {A B} (g : A -> B) (f : B -> M St Ctx unit) (l : list A) :
  forM_ (map g l) f = forM_ l (fun x => f (g x)).
Proof. induction l as [|x l IH]; simpl; [done|]. by rewrite IH. Qed.

Lemma calls_of_checkDirExists ctx st (l : list (option Directory)) :
  calls_of (checkDirExists s ctx) st l = map (dirQuery ctx) l.
Proof.
  unfold calls_of. induction l as [|x l IH]; simpl; [done|].
  rewrite IH. unfold checkDirExists. by rewrite checkFilesExist_run.
Qed.

Lemma validateOutputDirectory_miss ctx d st e :
  cache_Get (cache s) st ctx (OutputDirectory_TreeDigest d) = inl e ->
  validateOutputDirectory s ctx d st
  = mkRun (inl e) st [EvGet ctx (OutputDirectory_TreeDigest d)].
Proof.
  intros H. unfold validateOutputDirectory, bind, Get. simpl. by rewrite H.
Qed.

Lemma validateOutputDirectory_undecodable ctx d st blob msg :
  cache_Get (cache s) st ctx (OutputDirectory_TreeDigest d) = inr blob ->
  proto_Unmarshal_Tree (env s) blob = inl msg ->
  validateOutputDirectory s ctx d st
  = mkRun (inl (PlainError msg)) st [EvGet ctx (OutputDirectory_TreeDigest d)].
Proof.
  intros H1 H2. unfold validateOutputDirectory, bind, Get. simpl.
  rewrite H1. simpl. by rewrite H2.
Qed.

Lemma validateOutputDirectory_decoded ctx d st blob tree :
  cache_Get (cache s) st ctx (OutputDirectory_TreeDigest d) = inr blob ->
  proto_Unmarshal_Tree (env s) blob = inr tree ->
  validateOutputDirectory s ctx d st
  = mkRun (result (forM_ (treeDirs tree) (checkDirExists s ctx) st)) st
          (EvGet ctx (OutputDirectory_TreeDigest d)
             :: calls (forM_ (treeDirs tree) (checkDirExists s ctx) st)).
Proof.
  intros H1 H2.
  assert (Hro : read_only (forM_ (treeDirs tree) (checkDirExists s ctx))).
  { apply read_only_forM_. intros x. apply read_only_checkDirExists. }
  specialize (Hro st). revert Hro.
  unfold treeDirs. simpl. rewrite forM__map.
  set (body := bind _ _). intros Hro.
  unfold validateOutputDirectory.
  assert (Hget : result (Get s ctx (OutputDirectory_TreeDigest d) st) = inr blob)
    by done.
  rewrite (bind_inr _ _ _ _ Hget). simpl. rewrite H2.
  unfold bind at 1. simpl. fold body. by rewrite Hro.
Qed.

(** C5.  [validateActionResult] stops at its first failing step and
    returns the error of that step alone.  When the check of the output
    files fails, no directory is looked at.  Otherwise the output
    directories are taken in order.  For each one the tree blob is first
    fetched by [treeDigest]: when the get fails, the walk of this
    directory ends there with the error of the store; when the blob does
    not decode, it ends there with the error of the decoder.  Otherwise
    the root and then the children are checked in order, up to the first
    directory whose check fails, whose error is returned with nothing
    queried after it.  The validation ends at the first output directory
    whose walk fails, with the error of that walk and no call for the
    directories after it; it succeeds when every walk does. *)
Theorem validateActionResult_directories_in_order ctx (r : ActionResult) st :
  let walk := validateOutputDirectory s ctx in
  let fetch d := EvGet ctx (OutputDirectory_TreeDigest d) in
  let batch := outputFileDigests (OutputFiles r) in
  let first := EvContainsMulti ctx batch in
  (forall e,
      result (checkFilesExist s ctx batch st) = inl e ->
      validateActionResult s ctx r st = mkRun (inl e) st [first])
  /\ (forall d e,
      cache_Get (cache s) st ctx (OutputDirectory_TreeDigest d) = inl e ->
      walk d st = mkRun (inl e) st [fetch d])
  /\ (forall d blob msg,
      cache_Get (cache s) st ctx (OutputDirectory_TreeDigest d) = inr blob ->
      proto_Unmarshal_Tree (env s) blob = inl msg ->
      walk d st = mkRun (inl (PlainError msg)) st [fetch d])
  /\ (forall d blob tree pre c post e,
      cache_Get (cache s) st ctx (OutputDirectory_TreeDigest d) = inr blob ->
      proto_Unmarshal_Tree (env s) blob = inr tree ->
      treeDirs tree = pre ++ c :: post ->
      (forall x, x ∈ pre -> result (checkDirExists s ctx x st) = inr tt) ->
      result (checkDirExists s ctx c st) = inl e ->
      walk d st = mkRun (inl e) st (fetch d :: map (dirQuery ctx) (pre ++ [c])))
  /\ (forall d blob tree,
      cache_Get (cache s) st ctx (OutputDirectory_TreeDigest d) = inr blob ->
      proto_Unmarshal_Tree (env s) blob = inr tree ->
      (forall x, x ∈ treeDirs tree -> result (checkDirExists s ctx x st) = inr tt) ->
      walk d st = mkRun (inr tt) st (fetch d :: map (dirQuery ctx) (treeDirs tree)))
  /\ (forall pre d post e,
      result (checkFilesExist s ctx batch st) = inr tt ->
      OutputDirectories r = pre ++ d :: post ->
      (forall x, x ∈ pre -> result (walk x st) = inr tt) ->
      result (walk d st) = inl e ->
      validateActionResult s ctx r st
      = mkRun (inl e) st (first :: calls_of walk st pre ++ calls (walk d st)))
  /\ (result (checkFilesExist s ctx batch st) = inr tt ->
      (forall x, x ∈ OutputDirectories r -> result (walk x st) = inr tt) ->
      validateActionResult s ctx r st
      = mkRun (inr tt) st (first :: calls_of walk st (OutputDirectories r))).
Proof.
  intros walk fetch batch first.
  assert (Hro : forall y, read_only (checkDirExists s ctx y))
    by (intros y; apply read_only_checkDirExists).
  assert (Hrow : forall y, read_only (walk y))
    by (intros y; apply read_only_validateOutputDirectory).
  assert (Hval : forall res cs,
    result (checkFilesExist s ctx batch st) = inr tt ->
    result (forM_ (OutputDirectories r) walk st) = res ->
    calls (forM_ (OutputDirectories r) walk st) = cs ->
    validateActionResult s ctx r st = mkRun res st (first :: cs)).
  { intros res cs Hfiles <- <-. unfold validateActionResult.
    rewrite (bind_inr _ _ _ _ Hfiles).
    rewrite (read_only_checkFilesExist s ctx _ st).
    fold walk. rewrite (read_only_forM_ _ walk Hrow st).
    by rewrite checkFilesExist_run. }
  split.
  { intros e Hfiles. unfold validateActionResult.
    rewrite (bind_inl _ _ _ _ Hfiles).
    rewrite (read_only_checkFilesExist s ctx _ st).
    by rewrite checkFilesExist_run. }
  split; [intros d e; apply validateOutputDirectory_miss|].
  split; [intros d blob msg; apply validateOutputDirectory_undecodable|].
  split; [|split; [|split]].
  - intros d blob tree pre c post e Hget Hdec Hsplit Hpre Hc.
    unfold walk. rewrite (validateOutputDirectory_decoded _ _ _ _ _ Hget Hdec).
    rewrite Hsplit.
    destruct (forM__stops (checkDirExists s ctx) st pre post c e Hro Hpre Hc)
      as [-> ->].
    rewrite calls_of_checkDirExists, map_app. simpl.
    unfold checkDirExists at 1. by rewrite checkFilesExist_run.
  - intros d blob tree Hget Hdec Hall.
    unfold walk. rewrite (validateOutputDirectory_decoded _ _ _ _ _ Hget Hdec).
    destruct (forM__all (checkDirExists s ctx) st (treeDirs tree) Hro Hall)
      as [-> ->].
    by rewrite calls_of_checkDirExists.
  - intros pre d post e Hfiles Hsplit Hpre Hd.
    destruct (forM__stops walk st pre post d e Hrow Hpre Hd) as [Hres Hcalls].
    apply Hval; [done| |]; by rewrite Hsplit.
  - intros Hfiles Hall.
    destruct (forM__all walk st (OutputDirectories r) Hrow Hall) as [Hres Hcalls].
    by apply Hval.
Qed.
End Directories.

Example validateActionResult_fails_at_D2 :
  validateActionResult Scenario.srv "" Scenario.r Scenario.st
  = mkRun (inl (StatusError NotFound
                  "ActionResult output file: 'bbbb' not found in cache"))
          Scenario.st
          [EvContainsMulti "" [];
           EvGet "" (Some Mem.dT);
           EvContainsMulti "" [];
           EvContainsMulti "" [Mem.dA];
           EvContainsMulti "" [Mem.dB]].
Proof. by vm_compute. Qed.

Example validateActionResult_passes_when_full :
  result (validateActionResult Scenario.srv "" Scenario.r Scenario.st_full) = inr tt.
Proof. by vm_compute. Qed.

Lemma validateActionResult_directories_in_order_witness :
  validateActionResult Scenario.srv "" Scenario.r Scenario.st
  = mkRun (inl (StatusError NotFound
                  "ActionResult output file: 'bbbb' not found in cache"))
          Scenario.st
          ([EvContainsMulti "" []]
             ++ calls (validateOutputDirectory Scenario.srv "" Scenario.out Scenario.st)).
Proof.
  destruct (validateActionResult_directories_in_order
              Scenario.srv "" Scenario.r Scenario.st)
    as (_ & _ & _ & _ & _ & Hstop & _).
  apply (Hstop [] Scenario.out []).
  - vm_compute. reflexivity.
  - reflexivity.
  - intros x Hx. by apply elem_of_nil in Hx.
  - vm_compute. reflexivity.
Defined.

(** ** The handlers *)

Section Handlers.
Context {St Ctx : Type}.
Variable s : ActionCacheServer St Ctx.
Implicit Types (st : St) (ctx : Ctx).

(** [GetActionResult] on a digest that is set, step by step. *)
Lemma GetActionResult_run ctx req d st :
  Get_ActionDigest req = Some d ->
  GetActionResult s ctx req st
  = match digest_Validate (env s) d with
    | inl e => mkRun (inl e) st []
    | inr _ =>
        match cache_Get (cache s) st (scoped s ctx) (Some d) with
        | inl e =>
            mkRun (inl (StatusError NotFound (not_found_msg s d e))) st
                  [EvGet (scoped s ctx) (Some d)]
        | inr blob =>
            match proto_Unmarshal_ActionResult (env s) blob with
            | inl msg =>
                mkRun (inl (PlainError msg)) st [EvGet (scoped s ctx) (Some d)]
            | inr rsp =>
                let v := validateActionResult s (scoped s ctx) rsp st in
                mkRun (match result v with
                       | inl e => inl (StatusError NotFound (not_found_msg s d e))
                       | inr _ => inr rsp
                       end) st
                      (EvGet (scoped s ctx) (Some d) :: calls v)
            end
        end
    end.
Proof.
  intros Hd. unfold GetActionResult. rewrite Hd. fold (scoped s ctx).
  pose proof (read_only_validateActionResult s (scoped s ctx)) as Hro.
  unfold bind, mapError, liftE, liftPlain, Get, ret, fail. simpl.
  destruct (digest_Validate (env s) d) as [e|h]; simpl; [done|].
  destruct (cache_Get (cache s) st (scoped s ctx) (Some d)) as [e|blob]; simpl;
    [done|].
  destruct (proto_Unmarshal_ActionResult (env s) blob) as [msg|rsp]; simpl;
    [done|].
  specialize (Hro rsp st).
  destruct (validateActionResult s (scoped s ctx) rsp st) as [res st1 cs].
  simpl in *. subst st1. destruct res as [e|[]]; simpl; [done|].
  by rewrite app_nil_r.
Qed.

(** [UpdateActionResult] on a request with both fields set, step by
    step. *)
Lemma UpdateActionResult_run ctx req d ar st :
  Update_ActionDigest req = Some d ->
  Update_ActionResult req = Some ar ->
  UpdateActionResult s ctx req st
  = match digest_Validate (env s) d with
    | inl e => mkRun (inl e) st []
    | inr _ =>
        match proto_Marshal (env s) (setWorkerMetadata s ar) with
        | inl msg => mkRun (inl (PlainError msg)) st []
        | inr blob =>
            match cache_Set (cache s) st (scoped s ctx) d blob with
            | inl e => mkRun (inl e) st [EvSet (scoped s ctx) d blob]
            | inr st' =>
                mkRun (inr (setWorkerMetadata s ar)) st'
                      [EvSet (scoped s ctx) d blob]
            end
        end
    end.
Proof.
  intros Hd Har. unfold UpdateActionResult. rewrite Hd, Har. fold (scoped s ctx).
  unfold bind, liftE, liftPlain, Set_, ret, fail. simpl.
  destruct (digest_Validate (env s) d) as [e|h]; simpl; [done|].
  destruct (proto_Marshal (env s) (setWorkerMetadata s ar)) as [msg|blob];
    simpl; [done|].
  by destruct (cache_Set (cache s) st (scoped s ctx) d blob) as [e|st'].
Qed.

(** C9.  A request without an action digest is refused with
    [InvalidArgument] by [GetActionResult] and by [UpdateActionResult],
    and so is an update without an action result; in each case no call
    is made to the cache and the store is left as it was. *)
Theorem nil_fields_are_InvalidArgument ctx st :
  (forall name,
      GetActionResult s ctx (mkGetActionResultRequest name None) st
      = mkRun (inl (StatusError InvalidArgument "ActionDigest is a required field"))
              st [])
  /\ (forall name ar,
      UpdateActionResult s ctx (mkUpdateActionResultRequest name None ar) st
      = mkRun (inl (StatusError InvalidArgument "ActionDigest is a required field"))
              st [])
  /\ (forall name d,
      UpdateActionResult s ctx (mkUpdateActionResultRequest name (Some d) None) st
      = mkRun (inl (StatusError InvalidArgument "ActionResult is a required field"))
              st []).
Proof. done. Qed.

(** C6.  For a valid action digest, a failure of the cache to return the
    action-result blob, and any failure of the validation of the decoded
    result (whatever its error, [NotFound] and [Internal] included), is
    returned as [NotFound] with a message that starts with
    "ActionResult (<digest>) not found" for the action digest of the
    request, followed by the text of the underlying error. *)
Theorem GetActionResult_failures_are_NotFound ctx req d h st :
  Get_ActionDigest req = Some d ->
  digest_Validate (env s) d = inr h ->
  let found_msg := "ActionResult (" +:+ fmt_s (env s) d +:+ ") not found" in
  (forall e,
      cache_Get (cache s) st (scoped s ctx) (Some d) = inl e ->
      result (GetActionResult s ctx req st)
      = inl (StatusError NotFound
               (found_msg +:+ (": " +:+ error_Error (env s) e))))
  /\ (forall blob rsp e,
      cache_Get (cache s) st (scoped s ctx) (Some d) = inr blob ->
      proto_Unmarshal_ActionResult (env s) blob = inr rsp ->
      result (validateActionResult s (scoped s ctx) rsp st) = inl e ->
      result (GetActionResult s ctx req st)
      = inl (StatusError NotFound
               (found_msg +:+ (": " +:+ error_Error (env s) e)))).
Proof.
  intros Hd Hv found_msg. rewrite (GetActionResult_run _ _ _ _ Hd), Hv. split.
  - intros e ->. done.
  - intros blob rsp e -> -> He. simpl. by rewrite He.
Qed.

(** C7 (as amended).  When the blob fetched for a valid action digest does
    not decode into an [ActionResult], [GetActionResult] returns the error
    of the decoder as it is, after the one get and without running the
    validation: a plain error that carries no status code, so it is
    neither a [NotFound] nor an [Internal] error. *)
Theorem GetActionResult_undecodable ctx req d h blob msg st :
  Get_ActionDigest req = Some d ->
  digest_Validate (env s) d = inr h ->
  cache_Get (cache s) st (scoped s ctx) (Some d) = inr blob ->
  proto_Unmarshal_ActionResult (env s) blob = inl msg ->
  GetActionResult s ctx req st
  = mkRun (inl (PlainError msg)) st [EvGet (scoped s ctx) (Some d)]
  /\ forall c, ~ is_code c (PlainError msg).
Proof.
  intros Hd Hv Hget Hdec.
  rewrite (GetActionResult_run _ _ _ _ Hd), Hv, Hget, Hdec. split; [done|].
  intros c. simpl. tauto.
Qed.
End Handlers.

Lemma NewActionCacheServer_cache {St Ctx} (e : Env St Ctx) (s : ActionCacheServer St Ctx) :
  NewActionCacheServer e = Returns (inr s) ->
  env s = e
  /\ exists withPrefix,
       GetDigestCache e = Some withPrefix
       /\ withPrefix acCachePrefix = Some (cache s).
Proof.
  unfold NewActionCacheServer.
  destruct (GetDigestCache e) as [withPrefix|]; [|done].
  destruct (withPrefix acCachePrefix) eqn:Hc; [|done].
  intros [= <-]. split; [done|]. eauto.
Qed.

Section WritePath.
Context {St Ctx : Type}.
Variable s : ActionCacheServer St Ctx.
Implicit Types (st : St) (ctx : Ctx).

Lemma calls_UpdateActionResult ctx req st :
  Forall is_Set (calls (UpdateActionResult s ctx req st))
  /\ (length (calls (UpdateActionResult s ctx req st)) <= 1)%nat.
Proof.
  destruct (Update_ActionDigest req) as [d|] eqn:Hd.
  2: { unfold UpdateActionResult. rewrite Hd. simpl. split; [constructor|lia]. }
  destruct (Update_ActionResult req) as [ar|] eqn:Har.
  2: { unfold UpdateActionResult. rewrite Hd, Har. simpl. split; [constructor|lia]. }
  rewrite (UpdateActionResult_run s _ _ _ _ _ Hd Har).
  destruct (digest_Validate (env s) d); simpl; [split; [constructor|lia]|].
  destruct (proto_Marshal (env s) (setWorkerMetadata s ar)); simpl;
    [split; [constructor|lia]|].
  destruct (cache_Set (cache s) st (scoped s ctx) d b); simpl;
    (split; [by repeat constructor|lia]).
Qed.

(** C8.  [UpdateActionResult] never asks the cache whether a blob is
    there: the only call it can make is one [Set], and its outcome (value
    or error, store and calls) is the same whatever [Get] and
    [ContainsMulti] would answer.  On a well-formed request that encodes
    and whose [Set] succeeds, it stores the encoding of the stamped
    result under the action digest, in the scoped context, and returns
    the stamped result. *)
Theorem UpdateActionResult_no_existence_check ctx req st :
  (forall get containsMulti,
      UpdateActionResult (with_reads s get containsMulti) ctx req st
      = UpdateActionResult s ctx req st)
  /\ Forall is_Set (calls (UpdateActionResult s ctx req st))
  /\ (length (calls (UpdateActionResult s ctx req st)) <= 1)%nat
  /\ (forall d ar h blob st',
      Update_ActionDigest req = Some d ->
      Update_ActionResult req = Some ar ->
      digest_Validate (env s) d = inr h ->
      proto_Marshal (env s) (setWorkerMetadata s ar) = inr blob ->
      cache_Set (cache s) st (scoped s ctx) d blob = inr st' ->
      UpdateActionResult s ctx req st
      = mkRun (inr (setWorkerMetadata s ar)) st' [EvSet (scoped s ctx) d blob]).
Proof.
  split; [done|]. split; [apply calls_UpdateActionResult|].
  split; [apply calls_UpdateActionResult|].
  intros d ar h blob st' Hd Har Hv Hm Hset.
  by rewrite (UpdateActionResult_run s _ _ _ _ _ Hd Har), Hv, Hm, Hset.
Qed.

(** C10.  When [UpdateActionResult] succeeds on a request, the result it
    returns is the client's result with a new execution metadata whose
    worker is the identifier of the server and whose other fields are all
    unset, whatever execution metadata the client sent; and the blob it
    stored is the encoding of that same result. *)
Theorem UpdateActionResult_fresh_metadata ctx req d ar st r' :
  Update_ActionDigest req = Some d ->
  Update_ActionResult req = Some ar ->
  result (UpdateActionResult s ctx req st) = inr r' ->
  ExecutionMetadata r'
  = Some (mkExecutedActionMetadata (NodeID_base64 (env s))
            None None None None None None None None None)
  /\ r' = with_metadata (ExecutionMetadata r') ar
  /\ (forall em, setWorkerMetadata s (with_metadata em ar) = r')
  /\ exists blob,
      proto_Marshal (env s) r' = inr blob
      /\ calls (UpdateActionResult s ctx req st) = [EvSet (scoped s ctx) d blob]
      /\ cache_Set (cache s) st (scoped s ctx) d blob
         = inr (store (UpdateActionResult s ctx req st)).
Proof.
  intros Hd Har. rewrite (UpdateActionResult_run s _ _ _ _ _ Hd Har).
  destruct (digest_Validate (env s) d); simpl; [done|].
  destruct (proto_Marshal (env s) (setWorkerMetadata s ar)) as [|blob] eqn:Hm;
    simpl; [done|].
  destruct (cache_Set (cache s) st (scoped s ctx) d blob) eqn:Hset; simpl;
    [done|].
  intros [= <-]. split; [done|]. split; [done|]. split; [done|].
  exists blob. by rewrite Hm.
Qed.
End WritePath.

(** ** Update, then get *)

Section RoundTrip.
Context {St Ctx : Type}.
Variable s : ActionCacheServer St Ctx.
Implicit Types (st : St) (ctx : Ctx).

Lemma checkFilesExist_present st ctx digests :
  ContainsMulti_faithful s st ctx ->
  (forall d, d ∈ digests -> contains s st ctx d = true) ->
  result (checkFilesExist s ctx digests st) = inr tt.
Proof.
  intros Hcm Hall. destruct (Hcm digests) as (foundMap & Heq & Hmap).
  rewrite checkFilesExist_run, Heq. simpl. apply checkFound_ok.
  intros d Hd. rewrite (Hmap d Hd). by rewrite (Hall d Hd).
Qed.

Lemma validateActionResult_present st ctx r :
  ContainsMulti_faithful s st ctx ->
  outputs_present s st ctx r ->
  result (validateActionResult s ctx r st) = inr tt.
Proof.
  intros Hcm [Hfiles Hdirs]. unfold validateActionResult.
  assert (H1 : result (checkFilesExist s ctx (outputFileDigests (OutputFiles r)) st)
               = inr tt).
  { apply checkFilesExist_present; [done|]. intros d Hd.
    apply elem_of_outputFileDigests in Hd as (f & Hf & Hfd & _). eauto. }
  rewrite (bind_inr _ _ _ _ H1). simpl.
  rewrite (read_only_checkFilesExist s ctx _ st).
  apply forM__all; [intros y; apply read_only_validateOutputDirectory|].
  intros od Hod. destruct (Hdirs od Hod) as (blob & tree & Hget & Hdec & Htree).
  rewrite (validateOutputDirectory_decoded s _ _ _ _ _ Hget Hdec). cbn [result].
  apply forM__all; [intros y; apply read_only_checkDirExists|].
  intros dir Hdir. apply checkFilesExist_present; [done|].
  intros d Hd. apply elem_of_dirDigests in Hd as (f & Hf & Hfd). eauto.
Qed.

(** C1 (as amended).  Take a well-formed update whose stamped result
    encodes and is stored, a cache that gives back the blob just stored
    under the action digest and answers [ContainsMulti] faithfully, and a
    decoder that inverts the encoder on that blob.  If every output the
    result refers to is in the cache, the following [GetActionResult] on
    the same digest returns the result that was written with its output
    files, output directories and every other field unchanged, except
    the execution metadata, which is the new message that holds the
    worker identifier of the server and nothing else. *)
Theorem GetActionResult_after_UpdateActionResult
    ctx name name' d ar h blob st st' :
  let stamped := setWorkerMetadata s ar in
  digest_Validate (env s) d = inr h ->
  proto_Marshal (env s) stamped = inr blob ->
  cache_Set (cache s) st (scoped s ctx) d blob = inr st' ->
  cache_Get (cache s) st' (scoped s ctx) (Some d) = inr blob ->
  proto_Unmarshal_ActionResult (env s) blob = inr stamped ->
  ContainsMulti_faithful s st' (scoped s ctx) ->
  outputs_present s st' (scoped s ctx) ar ->
  store (UpdateActionResult s ctx
           (mkUpdateActionResultRequest name (Some d) (Some ar)) st) = st'
  /\ result (UpdateActionResult s ctx
               (mkUpdateActionResultRequest name (Some d) (Some ar)) st)
     = inr stamped
  /\ result (GetActionResult s ctx (mkGetActionResultRequest name' (Some d)) st')
     = inr stamped
  /\ OutputFiles stamped = OutputFiles ar
  /\ OutputDirectories stamped = OutputDirectories ar
  /\ stamped
     = with_metadata
         (Some (mkExecutedActionMetadata (NodeID_base64 (env s))
                  None None None None None None None None None)) ar.
Proof.
  intros stamped Hv Hm Hset Hget Hdec Hcm Hpresent.
  rewrite (UpdateActionResult_run s ctx
             (mkUpdateActionResultRequest name (Some d) (Some ar)) d ar st
             eq_refl eq_refl).
  fold stamped. rewrite Hv, Hm, Hset. simpl.
  split; [done|]. split; [done|]. split; [|done].
  rewrite (GetActionResult_run s ctx
             (mkGetActionResultRequest name' (Some d)) d st' eq_refl).
  rewrite Hv, Hget, Hdec. simpl.
  by rewrite (validateActionResult_present st' (scoped s ctx) stamped Hcm Hpresent).
Qed.
End RoundTrip.

(** ** The handlers on the reference environment *)

Lemma lookup_list_to_map_tabulate (g : Digest -> bool) (digests : list Digest) d :
  d ∈ digests ->
  (list_to_map (map (fun x => (x, g x)) digests) : gmap Digest bool) !! d
  = Some (g d).
Proof.
  induction digests as [|x rest IH]; intros Hd; [by apply elem_of_nil in Hd|].
  simpl. destruct (decide (x = d)) as [->|Hne].
  - by rewrite lookup_insert_eq.
  - rewrite lookup_insert_ne by done. apply IH.
    apply elem_of_cons in Hd as [->|Hd]; done.
Qed.

(** The in-memory cache honours the contract of [ContainsMulti]. *)
Lemma Mem_ContainsMulti_faithful results trees st ctx :
  ContainsMulti_faithful (Mem.server results trees) st ctx.
Proof.
  intros digests. eexists. split; [reflexivity|].
  intros d Hd.
  rewrite (lookup_list_to_map_tabulate
             (fun d => bool_decide (is_Some (Mem.blob_at (Mem.key acCachePrefix ctx d) st)))
             digests d Hd).
  unfold contains. simpl.
  destruct (Mem.blob_at (Mem.key acCachePrefix ctx d) st) eqn:Hk.
  - by rewrite bool_decide_eq_true_2.
  - rewrite bool_decide_eq_false_2; [done|]. by intros [? ?].
Qed.

Lemma Written_outputs_present st :
  (forall d, d ∈ [Mem.dA; Mem.dB; Mem.dT] ->
             Mem.blob_at (Mem.key acCachePrefix "user1/" d) st
             = Mem.blob_at (Mem.key acCachePrefix "user1/" d) Written.st) ->
  outputs_present Written.srv st (scoped Written.srv "") Written.r_client.
Proof.
  intros Hst.
  assert (HA : contains Written.srv st (scoped Written.srv "") Mem.dA = true).
  { unfold contains. simpl. rewrite Hst by set_solver. by vm_compute. }
  assert (HB : contains Written.srv st (scoped Written.srv "") Mem.dB = true).
  { unfold contains. simpl. rewrite Hst by set_solver. by vm_compute. }
  split.
  - intros f d Hf Hd. simpl in Hf. elem_cases Hf. simpl in Hd. by injection Hd as <-.
  - intros od Hod. simpl in Hod. elem_cases Hod.
    exists Mem.blobT, Scenario.T. split.
    { simpl. rewrite Hst by set_solver. by vm_compute. }
    split; [by vm_compute|].
    intros dir f d Hdir Hf Hd. unfold treeDirs in Hdir. simpl in Hdir.
    elem_cases Hdir; simpl in Hf; elem_cases Hf; simpl in Hd;
      by injection Hd as <-.
Qed.

Example update_then_get :
  let upd := UpdateActionResult Written.srv "" Written.update Written.st in
  result upd = inr Written.stamped
  /\ calls upd = [EvSet "user1/" Mem.dAction Mem.blobR]
  /\ GetActionResult Written.srv "" Written.get (store upd)
     = mkRun (inr Written.stamped) (store upd)
         [EvGet "user1/" (Some Mem.dAction);
          EvContainsMulti "user1/" [Mem.dA];
          EvGet "user1/" (Some Mem.dT);
          EvContainsMulti "user1/" [];
          EvContainsMulti "user1/" [Mem.dA];
          EvContainsMulti "user1/" [Mem.dB]].
Proof. by vm_compute. Qed.

(** C1 (as stated) fails: every output of the written result is in the
    cache, the update and the get succeed, and the result that comes back
    is not the written one with a new worker: the queued timestamp the
    client sent is gone. *)
Lemma roundtrip_drops_client_metadata :
  let upd := UpdateActionResult Written.srv "" Written.update Written.st in
  let got := GetActionResult Written.srv "" Written.get (store upd) in
  outputs_present Written.srv (store upd) (scoped Written.srv "") Written.r_client
  /\ result upd = inr Written.stamped
  /\ result got = inr Written.stamped
  /\ (forall w, Written.stamped <> with_worker w Written.r_client)
  /\ ExecutionMetadata Written.r_client ≫= QueuedTimestamp = Some Written.queued
  /\ ExecutionMetadata Written.stamped ≫= QueuedTimestamp = None.
Proof.
  intros upd got. split.
  { apply Written_outputs_present. intros d Hd. elem_cases Hd; by vm_compute. }
  split; [by vm_compute|]. split; [by vm_compute|].
  split; [|done]. intros w H. discriminate H.
Qed.

Lemma GetActionResult_after_UpdateActionResult_witness :
  result (GetActionResult Written.srv "" Written.get
            (store (UpdateActionResult Written.srv "" Written.update Written.st)))
  = inr Written.stamped
  /\ OutputFiles Written.stamped = OutputFiles Written.r_client
  /\ OutputDirectories Written.stamped = OutputDirectories Written.r_client.
Proof.
  pose (st' := (Mem.key acCachePrefix "user1/" Mem.dAction, Mem.blobR)
                 :: Written.st : Mem.St).
  assert (Hpresent :
    outputs_present Written.srv st' (scoped Written.srv "") Written.r_client).
  { apply Written_outputs_present. intros d Hd. elem_cases Hd; by vm_compute. }
  destruct (GetActionResult_after_UpdateActionResult Written.srv
              "" "main" "main" Mem.dAction Written.r_client "ac01" Mem.blobR
              Written.st st')
    as (Hst & _ & Hget & Hfiles & Hdirs & _).
  - reflexivity.
  - vm_compute. reflexivity.
  - reflexivity.
  - vm_compute. reflexivity.
  - vm_compute. reflexivity.
  - apply Mem_ContainsMulti_faithful.
  - exact Hpresent.
  - unfold Written.update. rewrite Hst. split; [exact Hget|].
    split; [exact Hfiles | exact Hdirs].
Defined.

Lemma GetActionResult_failures_are_NotFound_witness :
  result (GetActionResult Written.srv "" Written.get [])
  = inl (StatusError NotFound
           "ActionResult (ac01) not found: rpc error: code = NotFound desc = key not in cache")
  /\ result (GetActionResult Written.srv "" Written.get
               (store (UpdateActionResult Written.srv "" Written.update
                         Written.st_evicted)))
     = inl (StatusError NotFound
              "ActionResult (ac01) not found: rpc error: code = NotFound desc = ActionResult output file: 'bbbb' not found in cache").
Proof.
  split.
  - destruct (GetActionResult_failures_are_NotFound Written.srv "" Written.get
                Mem.dAction "ac01" [] eq_refl eq_refl) as [Hmiss _].
    apply (Hmiss (StatusError NotFound "key not in cache")). reflexivity.
  - destruct (GetActionResult_failures_are_NotFound Written.srv "" Written.get
                Mem.dAction "ac01"
                (store (UpdateActionResult Written.srv "" Written.update
                          Written.st_evicted))
                eq_refl eq_refl) as [_ Hinvalid].
    apply (Hinvalid Mem.blobR Written.stamped
             (StatusError NotFound
                "ActionResult output file: 'bbbb' not found in cache")).
    + vm_compute. reflexivity.
    + vm_compute. reflexivity.
    + vm_compute. reflexivity.
Defined.

(** C7 (as stated) fails: the entry of the action holds bytes that do not
    decode, and the error that comes back is the plain error of the
    decoder, which is not an [Internal] error. *)
Lemma GetActionResult_undecodable_not_Internal :
  let run := GetActionResult Written.srv "" Written.get Written.st_garbled in
  cache_Get (cache Written.srv) Written.st_garbled "user1/" (Some Mem.dAction)
  = inr [xff]
  /\ proto_Unmarshal_ActionResult (env Written.srv) [xff]
     = inl "proto: cannot parse invalid wire-format data"
  /\ result run = inl (PlainError "proto: cannot parse invalid wire-format data")
  /\ ~ (exists e, result run = inl e /\ is_code Internal e).
Proof.
  intros run. split; [by vm_compute|]. split; [by vm_compute|].
  split; [by vm_compute|].
  intros (e & He & Hcode). vm_compute in He. injection He as <-. exact Hcode.
Qed.

Lemma GetActionResult_undecodable_witness :
  GetActionResult Written.srv "" Written.get Written.st_garbled
  = mkRun (inl (PlainError "proto: cannot parse invalid wire-format data"))
          Written.st_garbled [EvGet "user1/" (Some Mem.dAction)].
Proof.
  apply (GetActionResult_undecodable Written.srv "" Written.get Mem.dAction
           "ac01" [xff] "proto: cannot parse invalid wire-format data"
           Written.st_garbled).
  - reflexivity.
  - reflexivity.
  - vm_compute. reflexivity.
  - vm_compute. reflexivity.
Defined.

Lemma UpdateActionResult_no_existence_check_witness :
  UpdateActionResult Written.srv "" Written.update []
  = mkRun (inr Written.stamped)
          [(Mem.key acCachePrefix "user1/" Mem.dAction, Mem.blobR)]
          [EvSet "user1/" Mem.dAction Mem.blobR].
Proof.
  destruct (UpdateActionResult_no_existence_check Written.srv "" Written.update [])
    as (_ & _ & _ & Hrun).
  apply (Hrun Mem.dAction Written.r_client "ac01" Mem.blobR).
  - reflexivity.
  - reflexivity.
  - reflexivity.
  - vm_compute. reflexivity.
  - vm_compute. reflexivity.
Defined.

Lemma UpdateActionResult_fresh_metadata_witness :
  ExecutionMetadata Written.stamped
  = Some (mkExecutedActionMetadata "bm9kZTAx"
            None None None None None None None None None)
  /\ proto_Marshal (env Written.srv) Written.stamped = inr Mem.blobR.
Proof.
  destruct (UpdateActionResult_fresh_metadata Written.srv "" Written.update
              Mem.dAction Written.r_client Written.st Written.stamped)
    as (Hmeta & _ & _ & blob & Hblob & _).
  - reflexivity.
  - reflexivity.
  - vm_compute. reflexivity.
  - split; [exact Hmeta|]. vm_compute. reflexivity.
Defined.

(** * Further properties of the handlers *)

Section Calls.
Context {St Ctx : Type}.
Implicit Types (st : St) (P : Event Ctx -> Prop).

Lemma Forall_calls_bind {A B} P (m : M St Ctx A) (k : A -> M St Ctx B) st :
  Forall P (calls (m st)) ->
  (forall a st', Forall P (calls (k a st'))) ->
  Forall P (calls (bind m k st)).
Proof.
  intros Hm Hk. unfold bind. destruct (result (m st)); simpl; [done|].
  apply Forall_app. split; [done|apply Hk].
Qed.

Lemma Forall_calls_forM_ {A} P (l : list A) (f : A -> M St Ctx unit) st :
  (forall x st', Forall P (calls (f x st'))) ->
  Forall P (calls (forM_ l f st)).
Proof.
  intros Hf. revert st. induction l as [|x l IH]; intros st; simpl.
  - constructor.
  - apply Forall_calls_bind; [apply Hf|]. intros _ st'. apply IH.
Qed.

(** A loop that succeeds has succeeded on every element. *)
Lemma forM__ok_inv {A} (f : A -> M St Ctx unit) st (l : list A) :
  (forall y, read_only (f y)) ->
  result (forM_ l f st) = inr tt ->
  forall y, y ∈ l -> result (f y st) = inr tt.
Proof.
  intros Hro. induction l as [|x l IH]; intros Hok y Hy.
  - by apply elem_of_nil in Hy.
  - simpl in Hok. destruct (result (f x st)) as [e|[]] eqn:Hx.
    + rewrite (bind_inl _ _ _ _ Hx) in Hok. done.
    + rewrite (bind_inr _ _ _ _ Hx) in Hok. simpl in Hok. rewrite Hro in Hok.
      apply elem_of_cons in Hy as [->|Hy]; [done|]. by apply IH.
Qed.
End Calls.

Section Validation.
Context {St Ctx : Type}.
Variable s : ActionCacheServer St Ctx.
Implicit Types (st : St) (ctx : Ctx).

(** With a faithful [ContainsMulti], a batch passes exactly when the cache
    holds every digest of the batch. *)
Lemma checkFilesExist_ok_iff st ctx (digests : list Digest) :
  ContainsMulti_faithful s st ctx ->
  result (checkFilesExist s ctx digests st) = inr tt
  <-> forall d, d ∈ digests -> contains s st ctx d = true.
Proof.
  intros Hcm. destruct (Hcm digests) as (foundMap & Heq & Hmap).
  rewrite checkFilesExist_run, Heq. simpl. rewrite checkFound_ok. split.
  - intros H d Hd. specialize (H d Hd). rewrite (Hmap d Hd) in H. congruence.
  - intros H d Hd. by rewrite (Hmap d Hd), (H d Hd).
Qed.

(** A walk that succeeds has fetched and decoded the tree and has passed
    the check of the root and of every child. *)
Lemma validateOutputDirectory_ok_inv ctx od st :
  result (validateOutputDirectory s ctx od st) = inr tt ->
  exists blob tree,
    cache_Get (cache s) st ctx (OutputDirectory_TreeDigest od) = inr blob
    /\ proto_Unmarshal_Tree (env s) blob = inr tree
    /\ (forall dir, dir ∈ treeDirs tree ->
                    result (checkDirExists s ctx dir st) = inr tt)
    /\ calls (validateOutputDirectory s ctx od st)
       = EvGet ctx (OutputDirectory_TreeDigest od) :: map (dirQuery ctx) (treeDirs tree).
Proof.
  intros Hok.
  destruct (cache_Get (cache s) st ctx (OutputDirectory_TreeDigest od))
    as [e|blob] eqn:Hget.
  { by rewrite (validateOutputDirectory_miss s _ _ _ _ Hget) in Hok. }
  destruct (proto_Unmarshal_Tree (env s) blob) as [msg|tree] eqn:Hdec.
  { by rewrite (validateOutputDirectory_undecodable s _ _ _ _ _ Hget Hdec) in Hok. }
  rewrite (validateOutputDirectory_decoded s _ _ _ _ _ Hget Hdec) in Hok |- *.
  cbn [result calls] in Hok |- *.
  assert (Hro : forall y, read_only (checkDirExists s ctx y))
    by (intros y; apply read_only_checkDirExists).
  pose proof (forM__ok_inv (checkDirExists s ctx) st (treeDirs tree) Hro Hok)
    as Hall.
  exists blob, tree. split; [done|]. split; [done|]. split; [done|].
  destruct (forM__all (checkDirExists s ctx) st (treeDirs tree) Hro Hall) as [_ ->].
  by rewrite calls_of_checkDirExists.
Qed.

(** X6.  When [ContainsMulti] answers faithfully, [validateActionResult]
    succeeds exactly when the cache holds what the validation looks at:
    the digest of every output file with inlined content and a digest of
    positive size, and for every output directory a tree blob that decodes
    and every digest set on a file of its root and children. *)
Theorem validateActionResult_ok_iff ctx (r : ActionResult) st :
  ContainsMulti_faithful s st ctx ->
  result (validateActionResult s ctx r st) = inr tt
  <-> validated_present s st ctx r.
Proof.
  intros Hcm.
  assert (Hrow : forall y, read_only (validateOutputDirectory s ctx y))
    by (intros y; apply read_only_validateOutputDirectory).
  assert (Hro : forall y, read_only (checkDirExists s ctx y))
    by (intros y; apply read_only_checkDirExists).
  unfold validated_present. split.
  - intros Hok. unfold validateActionResult in Hok.
    destruct (result (checkFilesExist s ctx (outputFileDigests (OutputFiles r)) st))
      as [e|[]] eqn:Hfiles.
    { by rewrite (bind_inl _ _ _ _ Hfiles) in Hok. }
    rewrite (bind_inr _ _ _ _ Hfiles) in Hok. simpl in Hok.
    rewrite (read_only_checkFilesExist s ctx _ st) in Hok.
    split.
    + intros f d Hf Hd Hc Hsz.
      apply (proj1 (checkFilesExist_ok_iff st ctx _ Hcm) Hfiles).
      apply elem_of_outputFileDigests. eauto.
    + intros od Hod.
      pose proof (forM__ok_inv _ _ _ Hrow Hok od Hod) as Hwalk.
      destruct (validateOutputDirectory_ok_inv _ _ _ Hwalk)
        as (blob & tree & Hget & Hdec & Hdirs & _).
      exists blob, tree. split; [done|]. split; [done|].
      intros dir f d Hdir Hf Hd.
      apply (proj1 (checkFilesExist_ok_iff st ctx _ Hcm) (Hdirs dir Hdir)).
      apply elem_of_dirDigests. eauto.
  - intros [Hfiles Hdirs]. unfold validateActionResult.
    assert (H1 : result (checkFilesExist s ctx (outputFileDigests (OutputFiles r)) st)
                 = inr tt).
    { apply checkFilesExist_ok_iff; [done|]. intros d Hd.
      apply elem_of_outputFileDigests in Hd as (f & Hf & Hfd & Hc & Hsz). eauto. }
    rewrite (bind_inr _ _ _ _ H1). simpl.
    rewrite (read_only_checkFilesExist s ctx _ st).
    apply forM__all; [done|].
    intros od Hod. destruct (Hdirs od Hod) as (blob & tree & Hget & Hdec & Htree).
    rewrite (validateOutputDirectory_decoded s _ _ _ _ _ Hget Hdec). cbn [result].
    apply forM__all; [done|].
    intros dir Hdir. apply checkFilesExist_ok_iff; [done|].
    intros d Hd. apply elem_of_dirDigests in Hd as (f & Hf & Hfd). eauto.
Qed.
End Validation.

Section HandlerFacts.
Context {St Ctx : Type}.
Variable s : ActionCacheServer St Ctx.
Implicit Types (st : St) (ctx : Ctx).

Lemma checkFilesExist_reads ctx digests st :
  Forall (read_in ctx) (calls (checkFilesExist s ctx digests st)).
Proof.
  rewrite checkFilesExist_run. simpl. repeat constructor. simpl. tauto.
Qed.

Lemma validateOutputDirectory_reads ctx od st :
  Forall (read_in ctx) (calls (validateOutputDirectory s ctx od st)).
Proof.
  unfold validateOutputDirectory. apply Forall_calls_bind.
  { simpl. repeat constructor. simpl. tauto. }
  intros blob st1. apply Forall_calls_bind.
  { destruct (proto_Unmarshal_Tree (env s) blob); constructor. }
  intros tree st2. apply Forall_calls_bind; [apply checkFilesExist_reads|].
  intros _ st3. apply Forall_calls_forM_. intros c st4.
  apply checkFilesExist_reads.
Qed.

Lemma validateActionResult_reads ctx r st :
  Forall (read_in ctx) (calls (validateActionResult s ctx r st)).
Proof.
  unfold validateActionResult.
  apply Forall_calls_bind; [apply checkFilesExist_reads|].
  intros _ st1. apply Forall_calls_forM_. intros od st2.
  apply validateOutputDirectory_reads.
Qed.

(** X2.  [GetActionResult] only reads: whatever the request and the
    outcome, it leaves the store as it was, makes no [Set], and every call
    it makes to the cache is made in the context scoped to the caller. *)
Theorem GetActionResult_only_reads ctx (req : GetActionResultRequest) st :
  store (GetActionResult s ctx req st) = st
  /\ Forall (read_in (scoped s ctx)) (calls (GetActionResult s ctx req st)).
Proof.
  destruct (Get_ActionDigest req) as [d|] eqn:Hd.
  2: { unfold GetActionResult. rewrite Hd. simpl. split; [done|constructor]. }
  rewrite (GetActionResult_run s _ _ _ _ Hd).
  destruct (digest_Validate (env s) d); simpl; [split; [done|constructor]|].
  assert (Hget : read_in (scoped s ctx) (EvGet (scoped s ctx) (Some d))).
  { split; [simpl; tauto|done]. }
  destruct (cache_Get (cache s) st (scoped s ctx) (Some d)) as [e|blob]; simpl.
  { split; [done|]. constructor; [exact Hget|constructor]. }
  destruct (proto_Unmarshal_ActionResult (env s) blob) as [msg|rsp]; simpl.
  { split; [done|]. constructor; [exact Hget|constructor]. }
  split; [done|]. constructor; [exact Hget|]. apply validateActionResult_reads.
Qed.

(** X3.  Every call [UpdateActionResult] makes to the cache is made in the
    context scoped to the caller, never in the context it was handed. *)
Theorem UpdateActionResult_calls_scoped ctx (req : UpdateActionResultRequest) st :
  Forall (fun ev => event_ctx ev = scoped s ctx)
         (calls (UpdateActionResult s ctx req st)).
Proof.
  destruct (Update_ActionDigest req) as [d|] eqn:Hd.
  2: { unfold UpdateActionResult. rewrite Hd. constructor. }
  destruct (Update_ActionResult req) as [ar|] eqn:Har.
  2: { unfold UpdateActionResult. rewrite Hd, Har. constructor. }
  rewrite (UpdateActionResult_run s _ _ _ _ _ Hd Har).
  destruct (digest_Validate (env s) d); simpl; [constructor|].
  destruct (proto_Marshal (env s) (setWorkerMetadata s ar)); simpl; [constructor|].
  destruct (cache_Set (cache s) st (scoped s ctx) d b); simpl; by repeat constructor.
Qed.

(** X1.  A digest that [digest.Validate] refuses is refused with the error
    of the validator, unchanged and before any call to the cache, by
    [GetActionResult] and by [UpdateActionResult] on a request that
    carries an action result.  An update without an action result never
    reaches the validator: it is refused with [InvalidArgument] for the
    missing result, also when the digest is one the validator refuses. *)
Theorem invalid_digest_rejected ctx st (d : Digest) (e : error) :
  digest_Validate (env s) d = inl e ->
  (forall name,
      GetActionResult s ctx (mkGetActionResultRequest name (Some d)) st
      = mkRun (inl e) st [])
  /\ (forall name ar,
      UpdateActionResult s ctx (mkUpdateActionResultRequest name (Some d) (Some ar)) st
      = mkRun (inl e) st [])
  /\ (forall name,
      UpdateActionResult s ctx (mkUpdateActionResultRequest name (Some d) None) st
      = mkRun (inl (StatusError InvalidArgument "ActionResult is a required field"))
              st []).
Proof.
  intros Hv. split; [|split].
  - intros name.
    rewrite (GetActionResult_run s ctx (mkGetActionResultRequest name (Some d))
               d st eq_refl).
    by rewrite Hv.
  - intros name ar.
    rewrite (UpdateActionResult_run s ctx
               (mkUpdateActionResultRequest name (Some d) (Some ar)) d ar st
               eq_refl eq_refl).
    by rewrite Hv.
  - done.
Qed.

(** X4.  For a valid action digest and a cache whose [ContainsMulti] is
    faithful, [GetActionResult] returns a result exactly when the cache
    holds a blob under the action digest, the blob decodes, and the cache
    holds everything the validation looks at; the result is then the
    decoded blob itself, with nothing changed on the way out. *)
Theorem GetActionResult_hit_iff ctx req d h st (r : ActionResult) :
  Get_ActionDigest req = Some d ->
  digest_Validate (env s) d = inr h ->
  ContainsMulti_faithful s st (scoped s ctx) ->
  result (GetActionResult s ctx req st) = inr r
  <-> exists blob,
        cache_Get (cache s) st (scoped s ctx) (Some d) = inr blob
        /\ proto_Unmarshal_ActionResult (env s) blob = inr r
        /\ validated_present s st (scoped s ctx) r.
Proof.
  intros Hd Hv Hcm. rewrite (GetActionResult_run s _ _ _ _ Hd), Hv.
  destruct (cache_Get (cache s) st (scoped s ctx) (Some d)) as [e|blob]; simpl.
  { split; [done|]. by intros (blob & Hb & _). }
  destruct (proto_Unmarshal_ActionResult (env s) blob) as [msg|rsp] eqn:Hdec; simpl.
  { split; [done|]. intros (blob' & [= <-] & Hb & _). congruence. }
  pose proof (validateActionResult_ok_iff s (scoped s ctx) rsp st Hcm) as Hiff.
  destruct (result (validateActionResult s (scoped s ctx) rsp st)) as [e|[]].
  - split; [done|]. intros (blob' & [= <-] & Hb & Hp).
    assert (rsp = r) as -> by congruence.
    apply Hiff in Hp. done.
  - split.
    + intros [= <-]. exists blob. split; [done|]. split; [done|]. by apply Hiff.
    + intros (blob' & [= <-] & Hb & _). congruence.
Qed.

(** X5.  For a valid action digest, an error of [GetActionResult] is
    either a [NotFound] whose message starts with the action digest, or
    the error of the decoder on the blob stored under the action digest:
    no error of the cache reaches the caller as it is. *)
Theorem GetActionResult_errors ctx req d h st (e : error) :
  Get_ActionDigest req = Some d ->
  digest_Validate (env s) d = inr h ->
  result (GetActionResult s ctx req st) = inl e ->
  (exists cause, e = StatusError NotFound (not_found_msg s d cause))
  \/ (exists blob msg,
        cache_Get (cache s) st (scoped s ctx) (Some d) = inr blob
        /\ proto_Unmarshal_ActionResult (env s) blob = inl msg
        /\ e = PlainError msg).
Proof.
  intros Hd Hv. rewrite (GetActionResult_run s _ _ _ _ Hd), Hv.
  destruct (cache_Get (cache s) st (scoped s ctx) (Some d)) as [e0|blob]; simpl.
  { intros [= <-]. left. eauto. }
  destruct (proto_Unmarshal_ActionResult (env s) blob) as [msg|rsp] eqn:Hdec; simpl.
  { intros [= <-]. right. eauto. }
  destruct (result (validateActionResult s (scoped s ctx) rsp st)) as [e0|[]];
    [|done].
  intros [= <-]. left. eauto.
Qed.

(** X7.  After the digest has been validated, a failure of the write path
    reaches the caller as it is: when the stamped result does not encode,
    the error of the encoder, with no call to the cache; when [Set] fails,
    the error of the cache, unwrapped, after that one call. *)
Theorem UpdateActionResult_failures ctx req d ar h st :
  Update_ActionDigest req = Some d ->
  Update_ActionResult req = Some ar ->
  digest_Validate (env s) d = inr h ->
  (forall msg,
      proto_Marshal (env s) (setWorkerMetadata s ar) = inl msg ->
      UpdateActionResult s ctx req st = mkRun (inl (PlainError msg)) st [])
  /\ (forall blob e,
      proto_Marshal (env s) (setWorkerMetadata s ar) = inr blob ->
      cache_Set (cache s) st (scoped s ctx) d blob = inl e ->
      result (UpdateActionResult s ctx req st) = inl e
      /\ calls (UpdateActionResult s ctx req st) = [EvSet (scoped s ctx) d blob]).
Proof.
  intros Hd Har Hv. rewrite (UpdateActionResult_run s _ _ _ _ _ Hd Har), Hv.
  split.
  - by intros msg ->.
  - by intros blob e -> ->.
Qed.
End HandlerFacts.

Section BatchFacts.
Context {St Ctx : Type}.
Variable s : ActionCacheServer St Ctx.
Implicit Types (st : St) (ctx : Ctx).

Lemma checkFound_error (foundMap : gmap Digest bool) (digests : list Digest) e :
  checkFound s foundMap digests = inl e ->
  exists d, d ∈ digests
    /\ ((foundMap !! d = None /\ e = StatusError Internal (missing_msg s d))
        \/ (foundMap !! d = Some false
            /\ e = StatusError NotFound (not_in_cache_msg s d))).
Proof.
  induction digests as [|x rest IH]; simpl; [done|].
  destruct (foundMap !! x) as [[|]|] eqn:Hx.
  - intros H. destruct (IH H) as (d & Hd & Hcase).
    exists d. split; [by right|done].
  - intros [= <-]. exists x. split; [left|]. right. done.
  - intros [= <-]. exists x. split; [left|]. left. done.
Qed.

(** X9.  An error of [checkFilesExist] is either the error of
    [ContainsMulti] itself, unchanged, or it is about one of the digests
    that were asked for: [Internal] for a digest the returned mapping has
    no entry for, [NotFound] for a digest the mapping marks as not
    found. *)
Theorem checkFilesExist_errors ctx (digests : list Digest) st (e : error) :
  result (checkFilesExist s ctx digests st) = inl e ->
  cache_ContainsMulti (cache s) st ctx digests = inl e
  \/ exists foundMap d,
       cache_ContainsMulti (cache s) st ctx digests = inr foundMap
       /\ d ∈ digests
       /\ ((foundMap !! d = None /\ e = StatusError Internal (missing_msg s d))
           \/ (foundMap !! d = Some false
               /\ e = StatusError NotFound (not_in_cache_msg s d))).
Proof.
  rewrite checkFilesExist_run. simpl.
  destruct (cache_ContainsMulti (cache s) st ctx digests) as [e0|foundMap].
  - intros [= <-]. by left.
  - intros H. right. destruct (checkFound_error _ _ _ H) as (d & Hd & Hcase).
    exists foundMap, d. done.
Qed.

Lemma outputFileDigests_no_contents (files : list OutputFile) :
  (forall f, f ∈ files -> OutputFile_Contents f = []) ->
  outputFileDigests files = [].
Proof.
  induction files as [|f rest IH]; intros H; simpl; [done|].
  assert (Hc : checked f = false).
  { unfold checked. rewrite (H f (list_elem_of_here _ _)). done. }
  rewrite Hc. apply IH. intros g Hg. apply H. by right.
Qed.

(** X8.  An output file without inlined content is never looked up,
    whatever its digest.  When no output file of the result has inlined
    content, the batch of the output files is empty; if the result has no
    output directory either, the validation consists of one
    [ContainsMulti] call on the empty batch and succeeds as soon as that
    call returns a mapping, whatever the cache holds. *)
Theorem output_files_without_contents_not_checked ctx (r : ActionResult) st
    (foundMap : gmap Digest bool) :
  (forall f, f ∈ OutputFiles r -> OutputFile_Contents f = []) ->
  cache_ContainsMulti (cache s) st ctx [] = inr foundMap ->
  outputFileDigests (OutputFiles r) = []
  /\ (OutputDirectories r = [] ->
      validateActionResult s ctx r st = mkRun (inr tt) st [EvContainsMulti ctx []]).
Proof.
  intros Hfiles Hcm.
  pose proof (outputFileDigests_no_contents _ Hfiles) as Hbatch.
  split; [done|]. intros Hdirs.
  unfold validateActionResult. rewrite Hbatch, Hdirs.
  assert (H : result (checkFilesExist s ctx [] st) = inr tt).
  { rewrite checkFilesExist_run, Hcm. done. }
  rewrite (bind_inr _ _ _ _ H). rewrite checkFilesExist_run. done.
Qed.

(** X10.  The slices of digests never outgrow the capacity they are made
    with: a batch holds at most one digest per output file, respectively
    per file of the directory, and the batch of a directory has exactly
    one digest per file whose digest is set. *)
Theorem batches_within_capacity (outs : list OutputFile) (files : list FileNode) :
  (length (outputFileDigests outs) <= length outs)%nat
  /\ (length (dirDigests files) <= length files)%nat
  /\ length (dirDigests files)
     = length (filter (fun f => is_Some (FileNode_Digest f)) files).
Proof.
  split; [|split].
  - induction outs as [|f rest IH]; simpl; [lia|].
    destruct (checked f); [|lia].
    destruct (OutputFile_Digest f); simpl; lia.
  - induction files as [|f rest IH]; simpl; [lia|].
    destruct (FileNode_Digest f); simpl; lia.
  - induction files as [|f rest IH]; simpl; [done|].
    rewrite filter_cons. destruct (FileNode_Digest f) as [d|] eqn:Hd.
    + rewrite decide_True by eauto. simpl. by rewrite IH.
    + rewrite decide_False; [done|]. by intros [? ?].
Qed.

Lemma walk_calls_length ctx st (dirs : list OutputDirectory) :
  (forall od, od ∈ dirs -> result (validateOutputDirectory s ctx od st) = inr tt) ->
  length (calls_of (validateOutputDirectory s ctx) st dirs)
  = sum_list (map (walk_cost s st ctx) dirs).
Proof.
  induction dirs as [|od rest IH]; intros Hall; [done|].
  unfold calls_of in *. simpl. rewrite length_app, IH.
  2: { intros x Hx. apply Hall. by right. }
  f_equal.
  destruct (validateOutputDirectory_ok_inv s ctx od st
              (Hall od (list_elem_of_here _ _)))
    as (blob & tree & Hget & Hdec & _ & ->).
  unfold walk_cost, decoded_tree. rewrite Hget, Hdec.
  unfold treeDirs. simpl. by rewrite !length_map.
Qed.

(** X11.  A validation that succeeds has made one call for the output
    files and, for every output directory, one get and one existence
    query for the root and for each child of its tree: no more, whatever
    the number of files. *)
Theorem validateActionResult_cost ctx (r : ActionResult) st :
  result (validateActionResult s ctx r st) = inr tt ->
  length (calls (validateActionResult s ctx r st))
  = S (sum_list (map (walk_cost s st ctx) (OutputDirectories r))).
Proof.
  intros Hok.
  assert (Hrow : forall y, read_only (validateOutputDirectory s ctx y))
    by (intros y; apply read_only_validateOutputDirectory).
  unfold validateActionResult in Hok |- *.
  destruct (result (checkFilesExist s ctx (outputFileDigests (OutputFiles r)) st))
    as [e|[]] eqn:Hfiles.
  { by rewrite (bind_inl _ _ _ _ Hfiles) in Hok. }
  rewrite (bind_inr _ _ _ _ Hfiles) in Hok |- *. simpl in Hok |- *.
  rewrite (read_only_checkFilesExist s ctx _ st) in Hok |- *.
  pose proof (forM__ok_inv _ _ _ Hrow Hok) as Hall.
  destruct (forM__all _ st _ Hrow Hall) as [_ ->].
  rewrite checkFilesExist_run. simpl. f_equal. by apply walk_calls_length.
Qed.
End BatchFacts.

(** ** The further properties on the reference environment *)

Lemma invalid_digest_rejected_witness :
  GetActionResult Written.srv ""
    (mkGetActionResultRequest "main" (Some Written.no_hash)) Written.st
  = mkRun (inl (StatusError InvalidArgument "Invalid (zero-length) SHA256 hash"))
          Written.st []
  /\ UpdateActionResult Written.srv ""
       (mkUpdateActionResultRequest "main" (Some Written.no_hash)
          (Some Written.r_client)) Written.st
     = mkRun (inl (StatusError InvalidArgument "Invalid (zero-length) SHA256 hash"))
             Written.st []
  /\ UpdateActionResult Written.srv ""
       (mkUpdateActionResultRequest "main" (Some Written.no_hash) None) Written.st
     = mkRun (inl (StatusError InvalidArgument "ActionResult is a required field"))
             Written.st [].
Proof.
  destruct (invalid_digest_rejected Written.srv "" Written.st Written.no_hash
              (StatusError InvalidArgument "Invalid (zero-length) SHA256 hash")
              eq_refl) as (Hget & Hupd & Hnil).
  split; [apply Hget|]. split; [apply Hupd|apply Hnil].
Defined.

Lemma validateActionResult_ok_iff_witness :
  validated_present Written.srv Written.st "user1/" Written.stamped.
Proof.
  apply (proj1 (validateActionResult_ok_iff Written.srv "user1/" Written.stamped
                  Written.st (Mem_ContainsMulti_faithful _ _ _ _))).
  vm_compute. reflexivity.
Defined.

Lemma GetActionResult_hit_iff_witness :
  exists blob,
    cache_Get (cache Written.srv) Written.st_written "user1/" (Some Mem.dAction)
    = inr blob
    /\ proto_Unmarshal_ActionResult (env Written.srv) blob = inr Written.stamped
    /\ validated_present Written.srv Written.st_written "user1/" Written.stamped.
Proof.
  apply (proj1 (GetActionResult_hit_iff Written.srv "" Written.get Mem.dAction
                  "ac01" Written.st_written Written.stamped eq_refl eq_refl
                  (Mem_ContainsMulti_faithful _ _ _ _))).
  vm_compute. reflexivity.
Defined.

Lemma GetActionResult_errors_witness :
  (exists cause,
      StatusError NotFound
        "ActionResult (ac01) not found: rpc error: code = NotFound desc = key not in cache"
      = StatusError NotFound (not_found_msg Written.srv Mem.dAction cause))
  \/ (exists blob msg,
        cache_Get (cache Written.srv) [] "user1/" (Some Mem.dAction) = inr blob
        /\ proto_Unmarshal_ActionResult (env Written.srv) blob = inl msg
        /\ StatusError NotFound
             "ActionResult (ac01) not found: rpc error: code = NotFound desc = key not in cache"
           = PlainError msg).
Proof.
  apply (GetActionResult_errors Written.srv "" Written.get Mem.dAction "ac01" []).
  - reflexivity.
  - reflexivity.
  - vm_compute. reflexivity.
Defined.

Lemma UpdateActionResult_failures_witness :
  UpdateActionResult Written.srv ""
    (mkUpdateActionResultRequest "main" (Some Mem.dAction) (Some Scenario.r)) []
  = mkRun (inl (PlainError "proto: cannot encode")) [] []
  /\ result (UpdateActionResult Written.srv_full "" Written.update [])
     = inl (StatusError ResourceExhausted "cache is full")
  /\ calls (UpdateActionResult Written.srv_full "" Written.update [])
     = [EvSet "user1/" Mem.dAction Mem.blobR].
Proof.
  split.
  - destruct (UpdateActionResult_failures Written.srv ""
                (mkUpdateActionResultRequest "main" (Some Mem.dAction) (Some Scenario.r))
                Mem.dAction Scenario.r "ac01" [] eq_refl eq_refl eq_refl)
      as [Henc _].
    apply Henc. vm_compute. reflexivity.
  - destruct (UpdateActionResult_failures Written.srv_full "" Written.update
                Mem.dAction Written.r_client "ac01" [] eq_refl eq_refl eq_refl)
      as [_ Hset].
    apply (Hset Mem.blobR).
    + vm_compute. reflexivity.
    + reflexivity.
Defined.

Lemma output_files_without_contents_not_checked_witness :
  validateActionResult Written.srv "user1/" Written.r_by_digest []
  = mkRun (inr tt) [] [EvContainsMulti "user1/" []].
Proof.
  destruct (output_files_without_contents_not_checked Written.srv "user1/"
              Written.r_by_digest [] ∅) as [_ Hrun].
  - intros f Hf. simpl in Hf. elem_cases Hf. reflexivity.
  - reflexivity.
  - apply Hrun. reflexivity.
Defined.

Lemma checkFilesExist_errors_witness :
  cache_ContainsMulti (cache Scenario.srv) Scenario.st "" [Mem.dA; Mem.dB]
  = inl (StatusError NotFound "ActionResult output file: 'bbbb' not found in cache")
  \/ exists foundMap d,
       cache_ContainsMulti (cache Scenario.srv) Scenario.st "" [Mem.dA; Mem.dB]
       = inr foundMap
       /\ d ∈ [Mem.dA; Mem.dB]
       /\ ((foundMap !! d = None
            /\ StatusError NotFound "ActionResult output file: 'bbbb' not found in cache"
               = StatusError Internal (missing_msg Scenario.srv d))
           \/ (foundMap !! d = Some false
               /\ StatusError NotFound "ActionResult output file: 'bbbb' not found in cache"
                  = StatusError NotFound (not_in_cache_msg Scenario.srv d))).
Proof.
  apply (checkFilesExist_errors Scenario.srv "" [Mem.dA; Mem.dB] Scenario.st).
  vm_compute. reflexivity.
Defined.

Lemma validateActionResult_cost_witness :
  length (calls (validateActionResult Scenario.srv "" Scenario.r Scenario.st_full))
  = 5%nat.
Proof.
  apply (validateActionResult_cost Scenario.srv "" Scenario.r Scenario.st_full).
  vm_compute. reflexivity.
Defined.
